(** * Card catalogue and duel resolver: a shallow embedding

    The development follows the two revisions of the card manager,
    [卡牌管理系统0.1.py] (module [V01]) and [卡牌管理系统0.2.py] (module
    [V02]).  Cards are Python objects: they live in an object store and the
    manager's [cards] list holds references to them, so that the snapshot
    copies taken by [simulate_battle] and the in-place updates of their
    [hp] can be told apart from the cards of the collection.

    Numbers.  The stat fields are Python [int]s when a card is built, and
    become [float]s once a damage computed from [attack * 1.5] or
    [attack * 0.5] has been subtracted.  Every value that arises is an
    integer multiple of one half, which binary floating point represents
    exactly as long as magnitudes stay below 2^52; the embedding therefore
    uses exact rationals ([Q]) for all numeric fields and compares them with
    [==]. *)

From Stdlib Require Import QArith Qround ZArith Lia Lqa.
From stdpp Require Import base option list gmap strings.

Open Scope Q_scope.

(** ** Python numerics on [Q] *)

(** [x > y] *)
Definition py_gt (x y : Q) : bool := negb (Qle_bool x y).

(** [x <= y] *)
Definition py_le (x y : Q) : bool := Qle_bool x y.

(** [x == y] on numbers *)
Definition py_eq (x y : Q) : bool := Qeq_bool x y.

(** [max(a, b)]: the first argument, unless the second is strictly greater. *)
Definition py_max (a b : Q) : Q := if py_gt b a then b else a.

(** A rational that is a whole number. *)
Definition integral (q : Q) : Prop := exists z : Z, q == inject_Z z.

(** ** The Card class *)

Record Card := mkCard {
  name : string;
  hp : Q;
  attack : Q;
  defense : Q;
  element : string;
  rarity : string;
  score : Q
}.

(** [Card.__init__]; the weight [k] of [defense] in the score is the only
    difference between the two revisions. *)
Definition Card_init (k : Q) (name : string) (hp attack defense : Q)
    (element rarity : string) : Card :=
  {| name := name; hp := hp; attack := attack; defense := defense;
     element := element; rarity := rarity;
     score := hp + 4 * attack + k * defense |}.

(** The score formula, as a predicate on a card. *)
Definition score_formula (k : Q) (c : Card) : Q :=
  hp c + 4 * attack c + k * defense c.

Definition score_consistent (k : Q) (c : Card) : Prop :=
  score c == score_formula k c.

Definition set_hp (c : Card) (v : Q) : Card :=
  {| name := name c; hp := v; attack := attack c; defense := defense c;
     element := element c; rarity := rarity c; score := score c |}.

Definition set_attack (c : Card) (v : Q) : Card :=
  {| name := name c; hp := hp c; attack := v; defense := defense c;
     element := element c; rarity := rarity c; score := score c |}.

Definition set_defense (c : Card) (v : Q) : Card :=
  {| name := name c; hp := hp c; attack := attack c; defense := v;
     element := element c; rarity := rarity c; score := score c |}.

Definition set_element (c : Card) (v : string) : Card :=
  {| name := name c; hp := hp c; attack := attack c; defense := defense c;
     element := v; rarity := rarity c; score := score c |}.

Definition set_rarity (c : Card) (v : string) : Card :=
  {| name := name c; hp := hp c; attack := attack c; defense := defense c;
     element := element c; rarity := v; score := score c |}.

Definition set_score (c : Card) (v : Q) : Card :=
  {| name := name c; hp := hp c; attack := attack c; defense := defense c;
     element := element c; rarity := rarity c; score := v |}.

(** ** The object store and the manager's state *)

(** A reference to a Card object: its position in the store. *)
Definition ref := nat.

(** [cards] is [self.cards], a list of references; [objs] holds the Card
    objects themselves.  A new object is placed at the end of the store. *)
Record World := mkWorld {
  cards : list ref;
  objs : list Card
}.

(** Computations read and update the world; [None] is a computation that
    is stuck on a dangling reference or has run out of fuel. *)
Definition M (A : Type) : Type := World -> option (A * World).

Global Instance M_ret : MRet M := fun A (a : A) w => Some (a, w).

Global Instance M_bind : MBind M := fun A B (f : A -> M B) (m : M A) w =>
  match m w with
  | Some (a, w') => f a w'
  | None => None
  end.

Definition stuck {A : Type} : M A := fun _ => None.

Definition get_cards : M (list ref) := fun w => Some (cards w, w).

(** Reading an object through a reference. *)
Definition read (r : ref) : M Card := fun w =>
  match objs w !! r with
  | Some c => Some (c, w)
  | None => None
  end.

(** [r.field], for a field projection. *)
Definition get {A : Type} (field : Card -> A) (r : ref) : M A :=
  c ← read r; mret (field c).

(** An assignment to a field of the object behind [r]. *)
Definition update (r : ref) (f : Card -> Card) : M unit := fun w =>
  match objs w !! r with
  | Some c => Some (tt, mkWorld (cards w) (<[r := f c]> (objs w)))
  | None => None
  end.

(** [Card(...)]: a new object, distinct from every existing one. *)
Definition new (c : Card) : M ref := fun w =>
  Some (length (objs w), mkWorld (cards w) (objs w ++ [c])).

(** [l[i]] for an index already known to be non-negative. *)
Definition item (l : list ref) (i : Z) : M ref := fun w =>
  match l !! Z.to_nat i with
  | Some r => Some (r, w)
  | None => None
  end.

(** Every card of the collection refers to an object of the store. *)
Definition wf (w : World) : Prop :=
  Forall (fun r => is_Some (objs w !! r)) (cards w).

(** ** The duel *)

(** What one round prints: its number, the two damages, the two hp after
    clamping. *)
Record round_record := mkRound {
  rr_round : Z;
  rr_damage1 : Q;
  rr_damage2 : Q;
  rr_hp1 : Q;
  rr_hp2 : Q
}.

Inductive verdict := Draw | Wins1 | Wins2.

(** What the user types at a numeric prompt, as [int(input(...))] sees it:
    a number, or text on which [int] raises [ValueError]. *)
Inductive user_input :=
| Numeric (z : Z)
| NonNumeric.

Inductive rejection :=
| NotEnoughCards   (* 至少需要两张卡牌才能对战! *)
| InvalidIndex     (* 无效的卡牌序号! *)
| InvalidNumber.   (* 请输入有效的数字序号! *)

(** What [simulate_battle] reports on the console: a rejection message, or
    the names of the two combatants, the rounds and the result line. *)
Inductive outcome :=
| Rejected (r : rejection)
| Fought (name1 name2 : string) (log : list round_record) (v : verdict).

Section Resolver.

(** The parts in which the two revisions differ: the attack computation
    (with its table) and the condition of the [while] loop. *)
Variable calc : Card -> Card -> Q.
Variable guard : Q -> Q -> Z -> bool.

(** [self.calculate_attack(x, y)] on two references. *)
Definition call_calc (x y : ref) : M Q :=
  a ← read x; b ← read y; mret (calc a b).

(** The body of the [while] loop. *)
Definition battle_round (c1 c2 : ref) (round_num : Z) : M round_record :=
  attack1 ← call_calc c1 c2;
  attack2 ← call_calc c2 c1;
  defense2 ← get defense c2;
  let damage1 :=
    if py_gt attack1 defense2 then py_max 1 (attack1 - defense2) else 1 in
  defense1 ← get defense c1;
  let damage2 :=
    if py_gt attack2 defense1 then py_max 1 (attack2 - defense1) else 1 in
  _ ← update c2 (fun c => set_hp c (hp c - damage1));
  _ ← update c1 (fun c => set_hp c (hp c - damage2));
  _ ← update c1 (fun c => set_hp c (py_max 0 (hp c)));
  _ ← update c2 (fun c => set_hp c (py_max 0 (hp c)));
  hp1 ← get hp c1;
  hp2 ← get hp c2;
  mret (mkRound round_num damage1 damage2 hp1 hp2).

(** The [while] loop, from the state in which [round_num] rounds minus
    one have been played; it returns the final [round_num] and the
    rounds printed. *)
Fixpoint battle_loop (fuel : nat) (c1 c2 : ref) (round_num : Z)
    (log : list round_record) : M (Z * list round_record) :=
  hp1 ← get hp c1;
  hp2 ← get hp c2;
  if guard hp1 hp2 round_num then
    match fuel with
    | O => stuck
    | S fuel' =>
        r ← battle_round c1 c2 round_num;
        battle_loop fuel' c1 c2 (round_num + 1)%Z (log ++ [r])
    end
  else mret (round_num, log).


(** The weight of [defense] in the score, and the verdict printed after
    the loop. *)
Variable k : Q.
Variable judge : Z -> Q -> Q -> verdict.

(** The loop followed by the verdict, from any round. *)
Definition resolve (fuel : nat) (c1 c2 : ref) (round_num : Z)
    (log : list round_record) : M (list round_record * verdict) :=
  res ← battle_loop fuel c1 c2 round_num log;
  hp1 ← get hp c1;
  hp2 ← get hp c2;
  mret (res.2, judge res.1 hp1 hp2).

(** [Card(card.name, card.hp, card.attack, card.defense, card.element,
    card.rarity)]: the snapshot of a card. *)
Definition snapshot (card : ref) : M ref :=
  c ← read card;
  new (Card_init k (name c) (hp c) (attack c) (defense c) (element c) (rarity c)).

(** The [try] block of [simulate_battle]: the two prompts, the range
    check, the two snapshots, the loop and the verdict. *)
Definition select_and_fight (fuel : nat) (in1 in2 : user_input) : M outcome :=
  match in1 with
  | NonNumeric => mret (Rejected InvalidNumber)
  | Numeric n1 =>
      let index1 := (n1 - 1)%Z in
      match in2 with
      | NonNumeric => mret (Rejected InvalidNumber)
      | Numeric n2 =>
          let index2 := (n2 - 1)%Z in
          cs ← get_cards;
          let len := Z.of_nat (length cs) in
          if (index1 <? 0)%Z || (index1 >=? len)%Z
             || (index2 <? 0)%Z || (index2 >=? len)%Z
          then mret (Rejected InvalidIndex)
          else
            card1 ← item cs index1;
            card2 ← item cs index2;
            name1 ← get name card1;
            name2 ← get name card2;
            c1 ← snapshot card1;
            c2 ← snapshot card2;
            res ← resolve fuel c1 c2 1 [];
            mret (Fought name1 name2 res.1 res.2)
      end
  end.

End Resolver.

(** The same round on two card values, for reasoning. *)
Definition damage_dealt (calc : Card -> Card -> Q) (attacker defender : Card) : Q :=
  let power := calc attacker defender in
  if py_gt power (defense defender)
  then py_max 1 (power - defense defender)
  else 1.

Definition hit (c : Card) (damage : Q) : Card :=
  set_hp c (py_max 0 (hp c - damage)).

(** ** The element tables and [calculate_attack] *)

(** The multiplier of the specification, over two abstract membership
    tests: 1.5 when the defender is beaten, else 0.5 when the attacker loses
    to it, else 1. *)
Definition multiplier (in_beats in_loses_to : bool) : Q :=
  if in_beats then 1.5 else if in_loses_to then 0.5 else 1.

Module V02.

Definition k : Q := 4.

(** [self.element_relations] of revision 0.2: every entry is a dict with
    the keys ['克'] (beats) and ['被克'] (loses to), each a list. *)
Definition rel (beats loses_to : list string) : gmap string (list string) :=
  list_to_map [("克"%string, beats); ("被克"%string, loses_to)].

Definition element_relations : gmap string (gmap string (list string)) :=
  list_to_map
    [ ("火", rel ["木"; "冰"; "兽"] ["水"; "岩"]);
      ("水", rel ["火"] ["电"]);
      ("木", rel ["电"; "土"] ["火"]);
      ("电", rel ["水"] ["木"; "光明"]);
      ("冰", rel ["龙"] ["火"; "神秘"]);
      ("土", rel ["火"] ["水"; "木"]);
      ("岩", rel ["电"; "虫"] ["水"; "木"; "神秘"]);
      ("虫", rel ["木"] ["龙"]);
      ("兽", rel ["水"; "虫"] ["火"; "电"]);
      ("龙", rel ["龙"] ["龙"; "神秘"]);
      ("神秘", rel ["冰"] ["暗"]);
      ("光明", rel ["暗"] ["神秘"]);
      ("暗", rel ["神秘"] ["光明"]) ]%string.

(** [calculate_attack]; the table is the manager's attribute, passed
    explicitly. *)
Definition calculate_attack (table : gmap string (gmap string (list string)))
    (attacker defender : Card) : Q :=
  let attacker_element := element attacker in
  let defender_element := element defender in
  let relations := default ∅ (table !! attacker_element) in
  if bool_decide (defender_element ∈ default [] (relations !! "克"%string))
  then attack attacker * 1.5
  else if bool_decide (defender_element ∈ default [] (relations !! "被克"%string))
  then attack attacker * 0.5
  else attack attacker.

(** The two sets the table lists for an element; empty when the element
    or the key is missing. *)
Definition beats (table : gmap string (gmap string (list string)))
    (e : string) : list string :=
  default [] (table !! e ≫= (.!! "克"%string)).

Definition loses_to (table : gmap string (gmap string (list string)))
    (e : string) : list string :=
  default [] (table !! e ≫= (.!! "被克"%string)).


(** The condition of the [while] loop. *)
Definition guard (hp1 hp2 : Q) (round_num : Z) : bool :=
  py_gt hp1 0 && py_gt hp2 0 && (round_num <=? 20)%Z.

(** The result printed after the loop. *)
Definition judge (round_num : Z) (hp1 hp2 : Q) : verdict :=
  if (round_num >=? 20)%Z then
    if (py_le hp1 0 && py_le hp2 0) || py_eq hp1 hp2 then Draw
    else if py_gt hp1 hp2 then Wins1
    else Wins2
  else if py_le hp1 0 && py_le hp2 0 then Draw
  else if py_le hp1 0 then Wins2
  else Wins1.

Definition calc : Card -> Card -> Q := calculate_attack element_relations.

Definition simulate_battle (fuel : nat) (in1 in2 : user_input) : M outcome :=
  cs ← get_cards;
  if (length cs <? 2)%nat then mret (Rejected NotEnoughCards)
  else select_and_fight calc guard k judge fuel in1 in2.

(** [find_card_by_name]: the first card of the collection with that
    name, with its index. *)
Fixpoint find_from (l : list ref) (i : nat) (nm : string) : M (option (nat * ref)) :=
  match l with
  | [] => mret None
  | r :: l' =>
      n ← get name r;
      if bool_decide (n = nm) then mret (Some (i, r))
      else find_from l' (S i) nm
  end.

Definition find_card_by_name (nm : string) : M (option (nat * ref)) :=
  cs ← get_cards; find_from cs 0%nat nm.

(** What the user types for a numeric field of [modify_card]: nothing,
    a number, or text on which [int] raises [ValueError]. *)
Inductive int_field :=
| Blank
| IntText (z : Z)
| BadText.

(** [int(new) if new else current]; [None] when [int] raises. *)
Definition int_or_keep (new : int_field) (current : Q) : option Q :=
  match new with
  | Blank => Some current
  | IntText z => Some (inject_Z z)
  | BadText => None
  end.

(** [new if new else current] *)
Definition str_or_keep (new current : string) : string :=
  if bool_decide (new = ""%string) then current else new.

Inductive modify_result :=
| NotFound          (* 未找到卡牌 *)
| Modified          (* 修改成功 *)
| ValueErrorRaised. (* the exception leaves [modify_card] uncaught *)

Definition modify_card (nm : string) (new_hp new_attack new_defense : int_field)
    (new_element new_rarity : string) : M modify_result :=
  found ← find_card_by_name nm;
  match found with
  | None => mret NotFound
  | Some (_, card) =>
      cur ← get hp card;
      match int_or_keep new_hp cur with
      | None => mret ValueErrorRaised
      | Some v =>
      _ ← update card (fun c => set_hp c v);
      cur ← get attack card;
      match int_or_keep new_attack cur with
      | None => mret ValueErrorRaised
      | Some v =>
      _ ← update card (fun c => set_attack c v);
      cur ← get defense card;
      match int_or_keep new_defense cur with
      | None => mret ValueErrorRaised
      | Some v =>
      _ ← update card (fun c => set_defense c v);
      _ ← update card (fun c => set_element c (str_or_keep new_element (element c)));
      _ ← update card (fun c => set_rarity c (str_or_keep new_rarity (rarity c)));
      _ ← update card (fun c => set_score c (hp c + 4 * attack c + 4 * defense c));
      mret Modified
      end end end
  end.

End V02.

Module V01.

Definition k : Q := 3.

(** In revision 0.1 an entry of the inner dict is a single element name,
    or (for ['土']) an empty list. *)
Inductive pyval :=
| PStr (s : string)
| PList (l : list string).

Definition rel (beats loses_to : pyval) : gmap string pyval :=
  list_to_map [("克"%string, beats); ("被克"%string, loses_to)].

Definition element_relations : gmap string (gmap string pyval) :=
  list_to_map
    [ ("火", rel (PStr "木") (PStr "水"));
      ("水", rel (PStr "火") (PStr "电"));
      ("电", rel (PStr "水") (PStr "木"));
      ("木", rel (PStr "电") (PStr "火"));
      ("土", rel (PList []) (PList [])) ]%string.

(** [relations.get(key) == s] for a string [s]: [None] and lists are
    never equal to a string. *)
Definition get_eq_str (v : option pyval) (s : string) : bool :=
  match v with
  | Some (PStr t) => bool_decide (t = s)
  | _ => false
  end.

Definition calculate_attack (table : gmap string (gmap string pyval))
    (attacker defender : Card) : Q :=
  let attacker_element := element attacker in
  let defender_element := element defender in
  let relations := default ∅ (table !! attacker_element) in
  if get_eq_str (relations !! "克"%string) defender_element
  then attack attacker * 1.5
  else if get_eq_str (relations !! "被克"%string) defender_element
  then attack attacker * 0.5
  else attack attacker.

(** The elements an entry lists. *)
Definition listed (v : option pyval) : list string :=
  match v with
  | Some (PStr s) => [s]
  | Some (PList l) => l
  | None => []
  end.

Definition beats (table : gmap string (gmap string pyval))
    (e : string) : list string :=
  listed (table !! e ≫= (.!! "克"%string)).

Definition loses_to (table : gmap string (gmap string pyval))
    (e : string) : list string :=
  listed (table !! e ≫= (.!! "被克"%string)).


(** The condition of the [while] loop: no cap on the rounds. *)
Definition guard (hp1 hp2 : Q) (round_num : Z) : bool :=
  py_gt hp1 0 && py_gt hp2 0.

Definition judge (round_num : Z) (hp1 hp2 : Q) : verdict :=
  if py_le hp1 0 && py_le hp2 0 then Draw
  else if py_le hp1 0 then Wins2
  else Wins1.

Definition calc : Card -> Card -> Q := calculate_attack element_relations.

Definition simulate_battle (fuel : nat) (in1 in2 : user_input) : M outcome :=
  select_and_fight calc guard k judge fuel in1 in2.

End V01.

(** * Properties *)

(** ** Numerics *)

Lemma py_gt_true x y : py_gt x y = true <-> y < x.
Proof.
  unfold py_gt. rewrite negb_true_iff, <- not_true_iff_false, Qle_bool_iff.
  split; [apply Qnot_le_lt | apply Qlt_not_le].
Qed.

Lemma py_gt_false x y : py_gt x y = false <-> x <= y.
Proof.
  unfold py_gt. rewrite negb_false_iff. apply Qle_bool_iff.
Qed.

Lemma py_le_true x y : py_le x y = true <-> x <= y.
Proof. apply Qle_bool_iff. Qed.

Lemma py_le_false x y : py_le x y = false <-> y < x.
Proof.
  unfold py_le. rewrite <- not_true_iff_false, Qle_bool_iff.
  split; [apply Qnot_le_lt | apply Qlt_not_le].
Qed.

Lemma py_eq_true x y : py_eq x y = true <-> x == y.
Proof. apply Qeq_bool_iff. Qed.

Lemma py_max_lower a b : a <= py_max a b.
Proof.
  unfold py_max. destruct (py_gt b a) eqn:E.
  - apply py_gt_true in E. apply Qlt_le_weak, E.
  - apply Qle_refl.
Qed.

Lemma py_max_above a b : a <= b -> py_max a b == b.
Proof.
  intros H. unfold py_max. destruct (py_gt b a) eqn:E; [reflexivity|].
  apply py_gt_false in E. apply Qle_antisym; assumption.
Qed.

Lemma py_max_below a b : b <= a -> py_max a b = a.
Proof.
  intros H. unfold py_max. destruct (py_gt b a) eqn:E; [|reflexivity].
  apply py_gt_true in E. exfalso. apply (Qlt_not_le _ _ E H).
Qed.

Lemma damage_dealt_floor calc x y : 1 <= damage_dealt calc x y.
Proof.
  unfold damage_dealt. cbv zeta.
  destruct (py_gt _ _); [apply py_max_lower | apply Qle_refl].
Qed.

Lemma hit_nonneg c d : 0 <= hp (hit c d).
Proof. apply py_max_lower. Qed.

Lemma hit_lethal c d : hp c <= d -> hp (hit c d) = 0.
Proof.
  intros H. cbn. apply py_max_below.
  apply (Qplus_le_l _ _ d). ring_simplify. exact H.
Qed.

Lemma hit_survive c d : d < hp c -> hp (hit c d) = hp c - d.
Proof.
  intros H. cbn. unfold py_max.
  destruct (py_gt (hp c - d) 0) eqn:E; [reflexivity|].
  apply py_gt_false in E. exfalso. apply (Qlt_not_le _ _ H).
  apply (Qplus_le_l _ _ (- d)). ring_simplify.
  ring_simplify in E. exact E.
Qed.

(** ** The round on the object store *)

(** [c1] and [c2] are two distinct objects holding [a] and [b]. *)
Definition snapshots (w : World) (c1 c2 : ref) (a b : Card) : Prop :=
  c1 <> c2 /\ objs w !! c1 = Some a /\ objs w !! c2 = Some b.

(** Nothing but [c1] and [c2] differs between two worlds. *)
Definition frame (c1 c2 : ref) (w w' : World) : Prop :=
  cards w' = cards w /\ length (objs w') = length (objs w) /\
  forall l, l <> c1 -> l <> c2 -> objs w' !! l = objs w !! l.

Lemma frame_refl c1 c2 w : frame c1 c2 w w.
Proof. repeat split. Qed.

Lemma frame_trans c1 c2 w1 w2 w3 :
  frame c1 c2 w1 w2 -> frame c1 c2 w2 w3 -> frame c1 c2 w1 w3.
Proof.
  intros (Hc & Hl & Ho) (Hc' & Hl' & Ho'). repeat split.
  - congruence.
  - congruence.
  - intros l H1 H2. rewrite Ho', Ho; auto.
Qed.

Lemma bind_run {A B : Type} (m : M A) (f : A -> M B) w a w' :
  m w = Some (a, w') -> (m ≫= f) w = f a w'.
Proof. intros H. unfold mbind, M_bind. rewrite H. reflexivity. Qed.

Lemma read_run w r c : objs w !! r = Some c -> read r w = Some (c, w).
Proof. intros H. unfold read. rewrite H. reflexivity. Qed.

Lemma get_run {A : Type} (field : Card -> A) w r c :
  objs w !! r = Some c -> get field r w = Some (field c, w).
Proof.
  intros H. unfold get. rewrite (bind_run _ _ _ _ _ (read_run _ _ _ H)).
  reflexivity.
Qed.

Lemma update_run w r f c :
  objs w !! r = Some c ->
  update r f w = Some (tt, mkWorld (cards w) (<[r := f c]> (objs w))).
Proof. intros H. unfold update. rewrite H. reflexivity. Qed.

Lemma call_calc_run calc w x y a b :
  objs w !! x = Some a -> objs w !! y = Some b ->
  call_calc calc x y w = Some (calc a b, w).
Proof.
  intros Hx Hy. unfold call_calc.
  rewrite (bind_run _ _ _ _ _ (read_run _ _ _ Hx)).
  rewrite (bind_run _ _ _ _ _ (read_run _ _ _ Hy)).
  reflexivity.
Qed.

Lemma snapshots_set_1 w c1 c2 a b a' :
  snapshots w c1 c2 a b ->
  snapshots (mkWorld (cards w) (<[c1 := a']> (objs w))) c1 c2 a' b
  /\ frame c1 c2 w (mkWorld (cards w) (<[c1 := a']> (objs w))).
Proof.
  intros (Hne & H1 & H2). repeat split; cbn.
  - exact Hne.
  - apply list_lookup_insert_eq. eapply lookup_lt_Some, H1.
  - rewrite list_lookup_insert_ne by exact Hne. exact H2.
  - apply length_insert.
  - intros l Hl _. apply list_lookup_insert_ne. congruence.
Qed.

Lemma snapshots_set_2 w c1 c2 a b b' :
  snapshots w c1 c2 a b ->
  snapshots (mkWorld (cards w) (<[c2 := b']> (objs w))) c1 c2 a b'
  /\ frame c1 c2 w (mkWorld (cards w) (<[c2 := b']> (objs w))).
Proof.
  intros (Hne & H1 & H2). repeat split; cbn.
  - exact Hne.
  - rewrite list_lookup_insert_ne by congruence. exact H1.
  - apply list_lookup_insert_eq. eapply lookup_lt_Some, H2.
  - apply length_insert.
  - intros l _ Hl. apply list_lookup_insert_ne. congruence.
Qed.

(** One round: both damages come from the cards as they were before the
    round, and both hp are updated. *)
Lemma battle_round_run calc c1 c2 n w a b :
  snapshots w c1 c2 a b ->
  exists w',
    battle_round calc c1 c2 n w =
      Some (mkRound n (damage_dealt calc a b) (damage_dealt calc b a)
              (hp (hit a (damage_dealt calc b a)))
              (hp (hit b (damage_dealt calc a b))), w')
    /\ snapshots w' c1 c2 (hit a (damage_dealt calc b a))
                          (hit b (damage_dealt calc a b))
    /\ frame c1 c2 w w'.
Proof.
  intros S0. pose proof S0 as (Hne & H1 & H2).
  unfold battle_round.
  rewrite (bind_run _ _ _ _ _ (call_calc_run calc _ _ _ _ _ H1 H2)).
  rewrite (bind_run _ _ _ _ _ (call_calc_run calc _ _ _ _ _ H2 H1)).
  rewrite (bind_run _ _ _ _ _ (get_run defense _ _ _ H2)).
  rewrite (bind_run _ _ _ _ _ (get_run defense _ _ _ H1)).
  fold (damage_dealt calc a b). fold (damage_dealt calc b a).
  set (d1 := damage_dealt calc a b). set (d2 := damage_dealt calc b a).
  rewrite (bind_run _ _ _ _ _ (update_run _ _ _ _ H2)).
  destruct (snapshots_set_2 _ _ _ _ _ (set_hp b (hp b - d1)) S0) as [S1 F1].
  pose proof S1 as (_ & H1' & _).
  rewrite (bind_run _ _ _ _ _ (update_run _ _ _ _ H1')).
  destruct (snapshots_set_1 _ _ _ _ _ (set_hp a (hp a - d2)) S1) as [S2 F2].
  pose proof S2 as (_ & H1'' & _).
  rewrite (bind_run _ _ _ _ _ (update_run _ _ _ _ H1'')).
  destruct (snapshots_set_1 _ _ _ _ _ (hit a d2) S2) as [S3 F3].
  pose proof S3 as (_ & _ & H2').
  rewrite (bind_run _ _ _ _ _ (update_run _ _ _ _ H2')).
  destruct (snapshots_set_2 _ _ _ _ _ (hit b d1) S3) as [S4 F4].
  pose proof S4 as (_ & H1f & H2f).
  rewrite (bind_run _ _ _ _ _ (get_run hp _ _ _ H1f)).
  rewrite (bind_run _ _ _ _ _ (get_run hp _ _ _ H2f)).
  eexists. split; [reflexivity|]. split; [exact S4|].
  eapply frame_trans; [|exact F4]. eapply frame_trans; [|exact F3].
  eapply frame_trans; [exact F1 | exact F2].
Qed.

(** ** The loop on the object store and on card values *)

(** The [while] loop on two card values. *)
Fixpoint loop_pure (calc : Card -> Card -> Q) (guard : Q -> Q -> Z -> bool)
    (fuel : nat) (a b : Card) (n : Z) (log : list round_record)
    : option (Card * Card * Z * list round_record) :=
  if guard (hp a) (hp b) n then
    match fuel with
    | O => None
    | S fuel' =>
        let a' := hit a (damage_dealt calc b a) in
        let b' := hit b (damage_dealt calc a b) in
        loop_pure calc guard fuel' a' b' (n + 1)%Z
          (log ++ [mkRound n (damage_dealt calc a b) (damage_dealt calc b a)
                     (hp a') (hp b')])
    end
  else Some (a, b, n, log).

Section LoopFacts.

Variable calc : Card -> Card -> Q.
Variable guard : Q -> Q -> Z -> bool.

(** The loop on the store does what the loop on values does, on the two
    snapshot objects only. *)
Lemma battle_loop_run c1 c2 fuel : forall w a b n log,
  snapshots w c1 c2 a b ->
  match loop_pure calc guard fuel a b n log with
  | Some (a', b', n', log') =>
      exists w', battle_loop calc guard fuel c1 c2 n log w = Some ((n', log'), w')
                 /\ snapshots w' c1 c2 a' b' /\ frame c1 c2 w w'
  | None => battle_loop calc guard fuel c1 c2 n log w = None
  end.
Proof.
  induction fuel as [|fuel IH]; intros w a b n log S0;
    pose proof S0 as (Hne & H1 & H2); cbn [loop_pure battle_loop];
    rewrite (bind_run _ _ _ _ _ (get_run hp _ _ _ H1));
    rewrite (bind_run _ _ _ _ _ (get_run hp _ _ _ H2));
    destruct (guard (hp a) (hp b) n) eqn:G.
  - reflexivity.
  - exists w. repeat split; auto.
  - destruct (battle_round_run calc c1 c2 n w a b S0) as (w1 & E & S1 & F1).
    rewrite (bind_run _ _ _ _ _ E).
    specialize (IH w1 _ _ (n + 1)%Z
      (log ++ [mkRound n (damage_dealt calc a b) (damage_dealt calc b a)
                 (hp (hit a (damage_dealt calc b a)))
                 (hp (hit b (damage_dealt calc a b)))]) S1).
    cbv zeta.
    destruct (loop_pure calc guard fuel _ _ _ _) as [[[[a' b'] n'] log']|].
    + destruct IH as (w' & E' & S' & F'). exists w'.
      split; [exact E'|]. split; [exact S'|].
      eapply frame_trans; eassumption.
    + exact IH.
  - exists w. repeat split; auto.
Qed.

(** An invariant of the loop holds of its final state, where the loop
    condition is false. *)
Lemma loop_pure_inv (P : Card -> Card -> Z -> list round_record -> Prop) :
  (forall a b n log, P a b n log -> guard (hp a) (hp b) n = true ->
     P (hit a (damage_dealt calc b a)) (hit b (damage_dealt calc a b))
       (n + 1)%Z
       (log ++ [mkRound n (damage_dealt calc a b) (damage_dealt calc b a)
                  (hp (hit a (damage_dealt calc b a)))
                  (hp (hit b (damage_dealt calc a b)))])) ->
  forall fuel a b n log a' b' n' log',
    P a b n log ->
    loop_pure calc guard fuel a b n log = Some (a', b', n', log') ->
    P a' b' n' log' /\ guard (hp a') (hp b') n' = false.
Proof.
  intros Step fuel. induction fuel as [|fuel IH];
    intros a b n log a' b' n' log' HP E; cbn [loop_pure] in E;
    destruct (guard (hp a) (hp b) n) eqn:G; try discriminate.
  - injection E as <- <- <- <-. auto.
  - eapply IH; [|exact E]. apply Step; assumption.
  - injection E as <- <- <- <-. auto.
Qed.

(** More fuel does not change a result. *)
Lemma loop_pure_fuel_mono fuel : forall fuel' a b n log r,
  (fuel <= fuel')%nat ->
  loop_pure calc guard fuel a b n log = Some r ->
  loop_pure calc guard fuel' a b n log = Some r.
Proof.
  induction fuel as [|fuel IH]; intros fuel' a b n log r Hle E;
    cbn [loop_pure] in E; destruct (guard (hp a) (hp b) n) eqn:G;
    try discriminate.
  - destruct fuel'; cbn [loop_pure]; rewrite G; exact E.
  - destruct fuel' as [|fuel']; [lia|]. cbn [loop_pure]. rewrite G.
    apply IH; [lia | exact E].
  - destruct fuel'; cbn [loop_pure]; rewrite G; exact E.
Qed.

End LoopFacts.

(** What the loop never touches. *)
Definition same_stats (a a' : Card) : Prop :=
  name a' = name a /\ attack a' = attack a /\ defense a' = defense a /\
  element a' = element a /\ rarity a' = rarity a /\ score a' = score a.

Lemma same_stats_refl a : same_stats a a.
Proof. repeat split. Qed.

Lemma same_stats_hit a a' d : same_stats a a' -> same_stats a (hit a' d).
Proof. intros H. exact H. Qed.

(** A printed round is sound: no negative hp, no damage below 1. *)
Definition round_ok (r : round_record) : Prop :=
  0 <= rr_hp1 r /\ 0 <= rr_hp2 r /\ 1 <= rr_damage1 r /\ 1 <= rr_damage2 r.

(** What is known of a state of the loop reached from [(a0, b0, n0, log0)]:
    [ext] are the rounds played since. *)
Definition reached (a0 b0 : Card) (n0 : Z) (log0 : list round_record)
    (a b : Card) (n : Z) (log : list round_record) : Prop :=
  same_stats a0 a /\ same_stats b0 b /\
  exists ext, log = log0 ++ ext /\ n = (n0 + Z.of_nat (length ext))%Z /\
    Forall round_ok ext /\
    (ext = [] -> a = a0 /\ b = b0) /\
    (ext <> [] -> 0 <= hp a /\ 0 <= hp b).

Lemma loop_pure_reached calc guard fuel a0 b0 n0 log0 a' b' n' log' :
  loop_pure calc guard fuel a0 b0 n0 log0 = Some (a', b', n', log') ->
  reached a0 b0 n0 log0 a' b' n' log' /\ guard (hp a') (hp b') n' = false.
Proof.
  apply (loop_pure_inv calc guard (reached a0 b0 n0 log0)).
  - intros a b n log (Sa & Sb & ext & -> & -> & Hok & _ & _) _.
    split; [exact Sa|]. split; [exact Sb|].
    eexists (ext ++ [_]). split; [symmetry; apply app_assoc|]. split.
    { rewrite length_app. cbn. lia. }
    split.
    { apply Forall_app. split; [exact Hok|]. constructor; [|constructor].
      repeat split; cbn [rr_hp1 rr_hp2 rr_damage1 rr_damage2];
        auto using hit_nonneg, damage_dealt_floor. }
    split.
    { intros E. destruct ext; discriminate E. }
    intros _. split; apply hit_nonneg.
  - split; [apply same_stats_refl|]. split; [apply same_stats_refl|].
    exists []. rewrite app_nil_r. repeat split; auto with zarith; contradiction.
Qed.

(** *** Revision 0.2: the cap bounds the loop *)

Lemma V02_loop_total calc fuel : forall a b n log,
  (Z.to_nat (21 - n) <= fuel)%nat ->
  exists r, loop_pure calc V02.guard fuel a b n log = Some r.
Proof.
  induction fuel as [|fuel IH]; intros a b n log Hf; cbn [loop_pure];
    destruct (V02.guard (hp a) (hp b) n) eqn:G; eauto.
  - unfold V02.guard in G. apply andb_true_iff in G as [_ G].
    apply Z.leb_le in G. lia.
  - apply IH. unfold V02.guard in G. apply andb_true_iff in G as [_ G].
    apply Z.leb_le in G. lia.
Qed.

Lemma V02_loop_cap calc fuel a b n log a' b' n' log' :
  (n <= 21)%Z ->
  loop_pure calc V02.guard fuel a b n log = Some (a', b', n', log') ->
  (n' <= 21)%Z.
Proof.
  intros Hn E.
  apply (loop_pure_inv calc V02.guard (fun _ _ m _ => (m <= 21)%Z)) in E;
    [tauto | | exact Hn].
  intros ? ? m ? _ G. unfold V02.guard in G.
  apply andb_true_iff in G as [_ G]. apply Z.leb_le in G. lia.
Qed.

(** *** Revision 0.1: every round takes at least 1 hp from each side *)

Lemma ceiling_pos x : 0 < x -> (1 <= Qceiling x)%Z.
Proof.
  intros H. pose proof (Qle_ceiling x) as Hc.
  assert (Hlt : inject_Z 0 < inject_Z (Qceiling x)).
  { eapply Qlt_le_trans; [exact H | exact Hc]. }
  rewrite <- Zlt_Qlt in Hlt. lia.
Qed.

Lemma hit_ceiling c d :
  1 <= d -> 0 < hp c -> (Qceiling (hp (hit c d)) <= Qceiling (hp c) - 1)%Z.
Proof.
  intros Hd Hpos. destruct (Qlt_le_dec d (hp c)) as [Hs | Hl].
  - rewrite (hit_survive _ _ Hs).
    rewrite <- (Qceiling_Z (Qceiling (hp c) - 1)).
    apply Qceiling_resp_le.
    unfold Zminus. rewrite inject_Z_plus, inject_Z_opp.
    pose proof (Qle_ceiling (hp c)) as Hc.
    apply Qplus_le_compat; [exact Hc|].
    apply Qopp_le_compat. exact Hd.
  - rewrite (hit_lethal _ _ Hl). pose proof (ceiling_pos _ Hpos).
    change (Qceiling 0) with 0%Z. lia.
Qed.

Lemma V01_loop_total calc fuel : forall a b n log,
  (Z.to_nat (Qceiling (hp a)) <= fuel)%nat ->
  exists r, loop_pure calc V01.guard fuel a b n log = Some r.
Proof.
  induction fuel as [|fuel IH]; intros a b n log Hf; cbn [loop_pure];
    destruct (V01.guard (hp a) (hp b) n) eqn:G; eauto;
    unfold V01.guard in G; apply andb_true_iff in G as [G _];
    apply py_gt_true in G; pose proof (ceiling_pos _ G).
  - lia.
  - apply IH.
    pose proof (hit_ceiling a (damage_dealt calc b a)
                  (damage_dealt_floor _ _ _) G).
    lia.
Qed.

(** ** The multiplier lookup *)

Ltac opt_simpl := cbn [default from_option id mbind option_bind].

Lemma V02_calculate_attack_spec table a d :
  V02.calculate_attack table a d ==
    attack a * multiplier (bool_decide (element d ∈ V02.beats table (element a)))
                          (bool_decide (element d ∈ V02.loses_to table (element a))).
Proof.
  unfold V02.calculate_attack, V02.beats, V02.loses_to, multiplier. cbv zeta.
  destruct (table !! element a) as [rels|]; opt_simpl.
  - destruct (bool_decide (element d ∈ default [] (rels !! "克"%string)));
      [reflexivity|].
    destruct (bool_decide (element d ∈ default [] (rels !! "被克"%string)));
      [reflexivity|]. ring.
  - rewrite !lookup_empty. opt_simpl.
    rewrite !bool_decide_eq_false_2 by apply not_elem_of_nil. ring.
Qed.

Lemma V02_absent_attacker table a d :
  table !! element a = None -> V02.calculate_attack table a d = attack a.
Proof.
  intros H. unfold V02.calculate_attack. cbv zeta. rewrite H. opt_simpl.
  rewrite !lookup_empty. opt_simpl.
  rewrite !bool_decide_eq_false_2 by apply not_elem_of_nil. reflexivity.
Qed.

Lemma V02_unlisted_pair table a d :
  element d ∉ V02.beats table (element a) ->
  element d ∉ V02.loses_to table (element a) ->
  V02.calculate_attack table a d = attack a.
Proof.
  unfold V02.calculate_attack, V02.beats, V02.loses_to. cbv zeta.
  destruct (table !! element a) as [rels|]; opt_simpl;
    intros H1 H2.
  - rewrite !bool_decide_eq_false_2 by assumption. reflexivity.
  - rewrite !lookup_empty. opt_simpl.
    rewrite !bool_decide_eq_false_2 by apply not_elem_of_nil. reflexivity.
Qed.

(** Every element named in a list of the 0.2 table has an entry of its
    own. *)
Lemma V02_table_closed ae de :
  de ∈ V02.beats V02.element_relations ae ++ V02.loses_to V02.element_relations ae ->
  is_Some (V02.element_relations !! de).
Proof.
  unfold V02.beats, V02.loses_to.
  destruct (V02.element_relations !! ae) as [rels|] eqn:E;
    opt_simpl; [|intros H; inversion H].
  apply elem_of_list_to_map_2 in E.
  repeat (apply elem_of_cons in E as [E|E];
          [injection E as _ ->; vm_compute default; intros H;
           repeat (apply elem_of_cons in H as [->|H]; [vm_compute; eauto|]);
           inversion H|]).
  inversion E.
Qed.

Lemma V02_absent_defender a d :
  V02.element_relations !! element d = None ->
  V02.calculate_attack V02.element_relations a d = attack a.
Proof.
  intros H. apply V02_unlisted_pair; intros Hin;
    destruct (V02_table_closed (element a) (element d)) as [x Hx];
    try congruence; apply elem_of_app; auto.
Qed.

(** In revision 0.1 an entry is compared with the defender's element as a
    whole; this is membership as long as the only lists are empty ones. *)
Definition V01_plain (v : option V01.pyval) : Prop :=
  forall l, v = Some (V01.PList l) -> l = [].

Lemma V01_get_eq_str_listed v s :
  V01_plain v -> V01.get_eq_str v s = bool_decide (s ∈ V01.listed v).
Proof.
  intros Hp. destruct v as [[t|l]|]; cbn.
  - apply bool_decide_ext. rewrite list_elem_of_singleton. split; congruence.
  - rewrite (Hp l eq_refl). symmetry. apply bool_decide_eq_false_2, not_elem_of_nil.
  - symmetry. apply bool_decide_eq_false_2, not_elem_of_nil.
Qed.

Lemma V01_table_plain ae key :
  V01_plain (V01.element_relations !! ae ≫= (.!! key)).
Proof.
  destruct (V01.element_relations !! ae) as [rels|] eqn:E;
    opt_simpl; [|intros l Hl; discriminate Hl].
  apply elem_of_list_to_map_2 in E.
  repeat (apply elem_of_cons in E as [E|E];
          [injection E as _ ->; unfold V01.rel;
           destruct (list_to_map _ !! key) as [v|] eqn:K;
           [|intros l Hl; discriminate Hl];
           apply elem_of_list_to_map_2 in K;
           repeat (apply elem_of_cons in K as [K|K];
                   [injection K as _ ->; intros l Hl; congruence|]);
           inversion K|]).
  inversion E.
Qed.

Lemma V01_calculate_attack_spec a d :
  V01.calculate_attack V01.element_relations a d ==
    attack a * multiplier
      (bool_decide (element d ∈ V01.beats V01.element_relations (element a)))
      (bool_decide (element d ∈ V01.loses_to V01.element_relations (element a))).
Proof.
  pose proof (V01_table_plain (element a) "克") as P1.
  pose proof (V01_table_plain (element a) "被克") as P2.
  unfold V01.calculate_attack, V01.beats, V01.loses_to, multiplier. cbv zeta.
  rewrite <- !V01_get_eq_str_listed by assumption.
  destruct (V01.element_relations !! element a) as [rels|];
    opt_simpl.
  - destruct (V01.get_eq_str (rels !! "克"%string) (element d)); [reflexivity|].
    destruct (V01.get_eq_str (rels !! "被克"%string) (element d)); [reflexivity|].
    ring.
  - rewrite !lookup_empty. cbn. ring.
Qed.

Lemma V01_absent_attacker table a d :
  table !! element a = None -> V01.calculate_attack table a d = attack a.
Proof.
  intros H. unfold V01.calculate_attack. cbv zeta. rewrite H. opt_simpl.
  rewrite !lookup_empty. reflexivity.
Qed.

Lemma V01_absent_defender a d :
  V01.element_relations !! element d = None ->
  V01.calculate_attack V01.element_relations a d = attack a.
Proof.
  intros H. unfold V01.calculate_attack. cbv zeta.
  destruct (V01.element_relations !! element a) as [rels|] eqn:E;
    opt_simpl; [|rewrite !lookup_empty; reflexivity].
  apply elem_of_list_to_map_2 in E.
  repeat (apply elem_of_cons in E as [E|E];
          [injection E as _ ->; vm_compute (V01.rel _ _ !! _);
           cbn [V01.get_eq_str];
           repeat (case_bool_decide;
                   [match goal with
                    | Hd : _ = element d |- _ => rewrite <- Hd in H
                    end; vm_compute in H; discriminate H|]);
           reflexivity|]).
  inversion E.
Qed.

(** C1.  [calculate_attack] is the multiplier lookup: the attacker's power
    is its base attack times 1.5 when the defender's element is in the
    attacker's beats list, else times 0.5 when it is in the loses-to list,
    else times 1.  When the attacker's element has no entry, when the
    defender's element is in neither list, or (for the tables of the two
    revisions) when the defender's element has no entry, the power is the
    base attack itself; a defender in both lists counts as beaten. *)
Theorem calculate_attack_is_multiplier_lookup :
  (forall table a d,
     V02.calculate_attack table a d ==
       attack a * multiplier
         (bool_decide (element d ∈ V02.beats table (element a)))
         (bool_decide (element d ∈ V02.loses_to table (element a))))
  /\ (forall a d,
     V01.calculate_attack V01.element_relations a d ==
       attack a * multiplier
         (bool_decide (element d ∈ V01.beats V01.element_relations (element a)))
         (bool_decide (element d ∈ V01.loses_to V01.element_relations (element a))))
  /\ (forall table a d, table !! element a = None ->
        V02.calculate_attack table a d = attack a)
  /\ (forall table a d, table !! element a = None ->
        V01.calculate_attack table a d = attack a)
  /\ (forall table a d,
        element d ∉ V02.beats table (element a) ->
        element d ∉ V02.loses_to table (element a) ->
        V02.calculate_attack table a d = attack a)
  /\ (forall a d, V02.element_relations !! element d = None ->
        V02.calculate_attack V02.element_relations a d = attack a)
  /\ (forall a d, V01.element_relations !! element d = None ->
        V01.calculate_attack V01.element_relations a d = attack a)
  /\ (forall table a d,
        element d ∈ V02.beats table (element a) ->
        element d ∈ V02.loses_to table (element a) ->
        V02.calculate_attack table a d == attack a * 1.5).
Proof.
  split; [exact V02_calculate_attack_spec|].
  split; [exact V01_calculate_attack_spec|].
  split; [exact V02_absent_attacker|].
  split; [exact V01_absent_attacker|].
  split; [exact V02_unlisted_pair|].
  split; [exact V02_absent_defender|].
  split; [exact V01_absent_defender|].
  intros table a d Hb Hl. rewrite V02_calculate_attack_spec.
  rewrite !bool_decide_eq_true_2 by assumption. reflexivity.
Qed.

(** A dragon attacks a dragon: ['龙'] is in both lists of ['龙'], and the
    power is 1.5 times the attack. *)
Lemma calculate_attack_dragon_witness :
  V02.calculate_attack V02.element_relations
    (Card_init V02.k "a" 30 8 2 "龙" "SR") (Card_init V02.k "b" 30 6 2 "龙" "R")
  == 8 * 1.5.
Proof.
  destruct calculate_attack_is_multiplier_lookup
    as (_ & _ & _ & _ & _ & _ & _ & Both).
  apply (Both V02.element_relations
           (Card_init V02.k "a" 30 8 2 "龙" "SR")
           (Card_init V02.k "b" 30 6 2 "龙" "R"));
    vm_compute; repeat constructor.
Defined.

(** C9.  The score computed when a card is built is
    [hp + 4 * attack + k * defense], with [k = 3] in revision 0.1 and
    [k = 4] in revision 0.2; a card with hp 100, attack 20 and defense 10
    scores 220 in revision 0.2. *)
Theorem score_at_construction :
  V01.k = 3 /\ V02.k = 4
  /\ (forall n h a d e r,
        score (Card_init V01.k n h a d e r) = h + 4 * a + 3 * d)
  /\ (forall n h a d e r,
        score (Card_init V02.k n h a d e r) = h + 4 * a + 4 * d)
  /\ (forall k n h a d e r, score_consistent k (Card_init k n h a d e r))
  /\ score (Card_init V02.k "c" 100 20 10 "火" "R") == 220.
Proof.
  repeat split; intros; reflexivity.
Qed.

(** ** The whole duel on the object store *)

Lemma resolve_run calc guard judge c1 c2 fuel w a b n log :
  snapshots w c1 c2 a b ->
  match loop_pure calc guard fuel a b n log with
  | Some (a', b', n', log') =>
      exists w',
        resolve calc guard judge fuel c1 c2 n log w =
          Some ((log', judge n' (hp a') (hp b')), w')
        /\ snapshots w' c1 c2 a' b' /\ frame c1 c2 w w'
  | None => resolve calc guard judge fuel c1 c2 n log w = None
  end.
Proof.
  intros S0. pose proof (battle_loop_run calc guard c1 c2 fuel w a b n log S0) as L.
  destruct (loop_pure calc guard fuel a b n log) as [[[[a' b'] n'] log']|].
  - destruct L as (w' & E & S' & F'). exists w'.
    split; [|split; assumption].
    pose proof S' as (_ & H1 & H2). unfold resolve.
    rewrite (bind_run _ _ _ _ _ E).
    rewrite (bind_run _ _ _ _ _ (get_run hp _ _ _ H1)).
    rewrite (bind_run _ _ _ _ _ (get_run hp _ _ _ H2)).
    reflexivity.
  - unfold resolve, mbind, M_bind. rewrite L. reflexivity.
Qed.

(** The snapshot of a card: what [Card(card.name, card.hp, ...)] builds. *)
Definition copy_of (k : Q) (c : Card) : Card :=
  Card_init k (name c) (hp c) (attack c) (defense c) (element c) (rarity c).

(** The number [n] typed at a prompt selects the card object [x], which
    sits behind the reference [r] at position [n - 1] of the collection. *)
Definition valid_choice (w : World) (n : Z) (r : ref) (x : Card) : Prop :=
  (1 <= n)%Z /\ cards w !! Z.to_nat (n - 1) = Some r /\ objs w !! r = Some x.

(** The world in which the duel starts: the two snapshots are the two
    newest objects. *)
Definition arena (k : Q) (w : World) (x y : Card) : World :=
  mkWorld (cards w) ((objs w ++ [copy_of k x]) ++ [copy_of k y]).

Lemma arena_snapshots k w x y :
  snapshots (arena k w x y) (length (objs w)) (S (length (objs w)))
    (copy_of k x) (copy_of k y).
Proof.
  split; [lia|]. unfold arena; cbn [objs]. split.
  - rewrite <- app_assoc. apply list_lookup_middle. reflexivity.
  - apply list_lookup_middle. rewrite length_app. cbn. lia.
Qed.

Lemma arena_old k w x y l c :
  objs w !! l = Some c -> objs (arena k w x y) !! l = Some c.
Proof.
  intros H. unfold arena; cbn [objs]. rewrite <- app_assoc.
  apply lookup_app_l_Some. exact H.
Qed.

Lemma range_check_passes w n r x :
  valid_choice w n r x ->
  ((n - 1 <? 0)%Z || (n - 1 >=? Z.of_nat (length (cards w)))%Z) = false.
Proof.
  intros (Hn & Hl & _). apply lookup_lt_Some in Hl.
  apply orb_false_iff. split.
  - apply Z.ltb_ge. lia.
  - rewrite Z.geb_leb. apply Z.leb_gt. lia.
Qed.

Lemma select_and_fight_run calc guard k judge fuel w n1 n2 r1 r2 x y :
  valid_choice w n1 r1 x -> valid_choice w n2 r2 y ->
  select_and_fight calc guard k judge fuel (Numeric n1) (Numeric n2) w =
    match resolve calc guard judge fuel
            (length (objs w)) (S (length (objs w))) 1 [] (arena k w x y) with
    | Some (res, w') => Some (Fought (name x) (name y) res.1 res.2, w')
    | None => None
    end.
Proof.
  intros V1 V2.
  pose proof (range_check_passes _ _ _ _ V1) as R1.
  pose proof (range_check_passes _ _ _ _ V2) as R2.
  destruct V1 as (_ & C1 & O1). destruct V2 as (_ & C2 & O2).
  unfold select_and_fight. cbv zeta.
  unfold mbind at 1. unfold M_bind at 1. cbn [get_cards].
  rewrite <- orb_assoc, R1, R2. cbn [orb].
  assert (I1 : item (cards w) (n1 - 1) w = Some (r1, w)).
  { unfold item. rewrite C1. reflexivity. }
  assert (I2 : item (cards w) (n2 - 1) w = Some (r2, w)).
  { unfold item. rewrite C2. reflexivity. }
  rewrite (bind_run _ _ _ _ _ I1), (bind_run _ _ _ _ _ I2).
  rewrite (bind_run _ _ _ _ _ (get_run name _ _ _ O1)).
  rewrite (bind_run _ _ _ _ _ (get_run name _ _ _ O2)).
  assert (S1 : snapshot k r1 w =
               Some (length (objs w), mkWorld (cards w) (objs w ++ [copy_of k x]))).
  { unfold snapshot. rewrite (bind_run _ _ _ _ _ (read_run _ _ _ O1)). reflexivity. }
  rewrite (bind_run _ _ _ _ _ S1).
  assert (S2 : snapshot k r2 (mkWorld (cards w) (objs w ++ [copy_of k x])) =
               Some (S (length (objs w)), arena k w x y)).
  { unfold snapshot.
    assert (O2' : objs (mkWorld (cards w) (objs w ++ [copy_of k x])) !! r2 = Some y).
    { cbn [objs]. apply lookup_app_l_Some. exact O2. }
    rewrite (bind_run _ _ _ _ _ (read_run _ _ _ O2')).
    unfold new, arena. cbn [objs cards]. rewrite length_app. cbn [length].
    rewrite Nat.add_1_r. reflexivity. }
  rewrite (bind_run _ _ _ _ _ S2).
  unfold mbind, M_bind.
  destruct (resolve calc guard judge fuel _ _ 1 [] (arena k w x y))
    as [[res w']|]; reflexivity.
Qed.

(** Whatever [select_and_fight] returns, it has either rejected the input
    and left the world alone, or both prompts selected a card. *)
Lemma select_and_fight_inv calc guard k judge fuel in1 in2 w out w' :
  select_and_fight calc guard k judge fuel in1 in2 w = Some (out, w') ->
  (exists r, out = Rejected r /\ w' = w)
  \/ (exists n1 n2 r1 r2 x y,
        in1 = Numeric n1 /\ in2 = Numeric n2 /\
        valid_choice w n1 r1 x /\ valid_choice w n2 r2 y).
Proof.
  unfold select_and_fight. cbv zeta.
  destruct in1 as [n1|]; [|intros [= <- <-]; left; eauto].
  destruct in2 as [n2|]; [|intros [= <- <-]; left; eauto].
  unfold mbind at 1. unfold M_bind at 1. cbn [get_cards].
  destruct (_ || _) eqn:R; [intros [= <- <-]; left; eauto|].
  apply orb_false_iff in R as [R R4]. apply orb_false_iff in R as [R R3].
  apply orb_false_iff in R as [R1 R2].
  apply Z.ltb_ge in R1, R3.
  intros E. right. exists n1, n2.
  unfold mbind, M_bind, item, get, read, mbind, M_bind, mret, M_ret in E.
  destruct (cards w !! Z.to_nat (n1 - 1)) as [r1|] eqn:C1;
    cbn beta iota in E; [|discriminate E].
  destruct (cards w !! Z.to_nat (n2 - 1)) as [r2|] eqn:C2;
    cbn beta iota in E; [|discriminate E].
  destruct (objs w !! r1) as [x|] eqn:O1;
    cbn beta iota in E; [|discriminate E].
  destruct (objs w !! r2) as [y|] eqn:O2;
    cbn beta iota in E; [|discriminate E].
  exists r1, r2, x, y. repeat split; auto; lia.
Qed.

(** ** The damage of one blow *)

Lemma damage_dealt_above calc a d :
  defense d < calc a d ->
  damage_dealt calc a d = py_max 1 (calc a d - defense d).
Proof.
  intros H. unfold damage_dealt. cbv zeta.
  apply py_gt_true in H. rewrite H. reflexivity.
Qed.

Lemma damage_dealt_exceeds calc a d :
  defense d + 1 <= calc a d ->
  damage_dealt calc a d == calc a d - defense d.
Proof.
  intros H. rewrite damage_dealt_above by lra. apply py_max_above. lra.
Qed.

Lemma damage_dealt_narrow calc a d :
  defense d < calc a d -> calc a d < defense d + 1 ->
  damage_dealt calc a d = 1.
Proof.
  intros H1 H2. rewrite damage_dealt_above by exact H1.
  apply py_max_below. lra.
Qed.

Lemma damage_dealt_blocked calc a d :
  calc a d <= defense d -> damage_dealt calc a d = 1.
Proof.
  intros H. unfold damage_dealt. cbv zeta.
  apply py_gt_false in H. rewrite H. reflexivity.
Qed.

Lemma integral_difference_exceeds x y :
  integral (x - y) -> y < x -> y + 1 <= x.
Proof.
  intros [z Hz] Hlt.
  assert (Hpos : inject_Z 0 < inject_Z z).
  { rewrite <- Hz. change (inject_Z 0) with 0. lra. }
  rewrite <- Zlt_Qlt in Hpos.
  assert (Hone : inject_Z 1 <= inject_Z z) by (rewrite <- Zle_Qle; lia).
  rewrite <- Hz in Hone. change (inject_Z 1) with 1 in Hone. lra.
Qed.

(** What the claim about the damage says of one blow, and where it holds. *)
Definition blow_spec (calc : Card -> Card -> Q) (a d : Card) (damage : Q) : Prop :=
  (defense d < calc a d -> damage = py_max 1 (calc a d - defense d))
  /\ (defense d + 1 <= calc a d -> damage == calc a d - defense d)
  /\ (defense d < calc a d -> integral (calc a d - defense d) ->
      damage == calc a d - defense d)
  /\ (defense d < calc a d -> calc a d < defense d + 1 -> damage = 1)
  /\ (calc a d <= defense d -> damage = 1)
  /\ 1 <= damage.

Lemma damage_dealt_blow_spec calc a d : blow_spec calc a d (damage_dealt calc a d).
Proof.
  repeat split.
  - apply damage_dealt_above.
  - apply damage_dealt_exceeds.
  - intros Hlt Hint. apply damage_dealt_exceeds.
    apply integral_difference_exceeds; assumption.
  - apply damage_dealt_narrow.
  - apply damage_dealt_blocked.
  - apply damage_dealt_floor.
Qed.

(** Two cards for the examples: water against fire, as in the end-to-end
    scenario of the specification, with small stats. *)
Definition water_1 : Card := Card_init V02.k "A" 10 1 0 "水" "R".
Definition fire_1 : Card := Card_init V02.k "B" 10 1 1 "火" "R".

(** C4 (as stated, refuted).  Water with attack 1 strikes fire with defense
    1: the power 1.5 strictly exceeds the defense, yet the damage of the
    round is 1 and not power minus defense, which is one half. *)
Lemma damage_is_not_the_difference :
  exists r w',
    battle_round V02.calc 0%nat 1%nat 1 (mkWorld [0%nat; 1%nat] [water_1; fire_1])
      = Some (r, w')
    /\ defense fire_1 < V02.calc water_1 fire_1
    /\ V02.calc water_1 fire_1 - defense fire_1 == 1 # 2
    /\ rr_damage1 r == 1
    /\ ~ rr_damage1 r == V02.calc water_1 fire_1 - defense fire_1.
Proof.
  eexists. eexists. split; [vm_compute; reflexivity|].
  cbn [rr_damage1]. vm_compute. repeat split; discriminate.
Qed.

(** C4 (amended).  In every round and each direction, the damage is
    [max(1, power - defense)] when the power strictly exceeds the opposing
    defense: power minus defense when that is at least 1 (in particular
    whenever it is a whole number), 1 when it is below 1; and the damage is
    exactly 1 when the power does not exceed the defense.  No round deals
    less than 1 damage in either direction. *)
Theorem damage_of_a_round calc w c1 c2 a b n :
  snapshots w c1 c2 a b ->
  exists r w',
    battle_round calc c1 c2 n w = Some (r, w')
    /\ blow_spec calc a b (rr_damage1 r)
    /\ blow_spec calc b a (rr_damage2 r).
Proof.
  intros S0. destruct (battle_round_run calc c1 c2 n w a b S0) as (w' & E & _).
  eexists. exists w'. split; [exact E|].
  cbn [rr_damage1 rr_damage2]. split; apply damage_dealt_blow_spec.
Qed.

Lemma damage_of_a_round_witness :
  exists r w',
    battle_round V02.calc 0%nat 1%nat 1 (mkWorld [0%nat; 1%nat] [water_1; fire_1])
      = Some (r, w')
    /\ blow_spec V02.calc water_1 fire_1 (rr_damage1 r)
    /\ blow_spec V02.calc fire_1 water_1 (rr_damage2 r).
Proof.
  apply (damage_of_a_round V02.calc (mkWorld [0%nat; 1%nat] [water_1; fire_1])
           0%nat 1%nat water_1 fire_1 1).
  repeat split. lia.
Defined.

(** ** Halves *)









(** ** The verdict *)

(** The verdict rule of the specification.  A tie-break on the final hp:
    the higher hp wins, equal hp is a draw. *)
Definition tie_break (hp1 hp2 : Q) : verdict :=
  if py_gt hp1 hp2 then Wins1
  else if py_gt hp2 hp1 then Wins2
  else Draw.

(** Both at 0 or below is a draw; otherwise the one at 0 or below loses. *)
Definition knockout (hp1 hp2 : Q) : verdict :=
  if py_le hp1 0 && py_le hp2 0 then Draw
  else if py_le hp1 0 then Wins2
  else Wins1.

(** The loop ended because of the round cap, and not because an hp reached
    0: all 20 rounds were played and both combatants still stand. *)
Definition ended_by_cap (rounds : nat) (hp1 hp2 : Q) : bool :=
  (20 <=? rounds)%nat && py_gt hp1 0 && py_gt hp2 0.

Definition spec_verdict (rounds : nat) (hp1 hp2 : Q) : verdict :=
  if ended_by_cap rounds hp1 hp2 then tie_break hp1 hp2 else knockout hp1 hp2.

Lemma py_eq_false x y : py_eq x y = false -> ~ x == y.
Proof. apply Qeq_bool_neq. Qed.

(** Case analysis on every comparison of the goal. *)
Ltac cmp_cases :=
  repeat match goal with
  | |- context [py_gt ?x ?y] =>
      let E := fresh "E" in
      destruct (py_gt x y) eqn:E;
      [apply py_gt_true in E | apply py_gt_false in E]
  | |- context [py_le ?x ?y] =>
      let E := fresh "E" in
      destruct (py_le x y) eqn:E;
      [apply py_le_true in E | apply py_le_false in E]
  | |- context [py_eq ?x ?y] =>
      let E := fresh "E" in
      destruct (py_eq x y) eqn:E;
      [apply py_eq_true in E | apply py_eq_false in E]
  | |- context [(?x <=? ?y)%Z] => destruct (Z.leb_spec x y)
  | |- context [(?x >=? ?y)%Z] => rewrite (Z.geb_leb x y)
  | |- context [(?x <=? ?y)%nat] => destruct (Nat.leb_spec x y)
  end;
  cbn [andb orb negb].

Lemma V02_judge_final n rounds h1 h2 :
  n = (1 + Z.of_nat rounds)%Z ->
  (n <= 21)%Z ->
  V02.guard h1 h2 n = false ->
  V02.judge n h1 h2 = spec_verdict rounds h1 h2
  /\ (ended_by_cap rounds h1 h2 = false -> h1 <= 0 \/ h2 <= 0).
Proof.
  intros -> Hn. unfold V02.guard, V02.judge, spec_verdict, ended_by_cap,
    tie_break, knockout.
  cmp_cases; intros G; split; intros; try discriminate; try reflexivity;
    auto; try lia; try (exfalso; lra).
Qed.

Lemma V01_judge_final n h1 h2 :
  V01.guard h1 h2 n = false ->
  V01.judge n h1 h2 = knockout h1 h2 /\ (h1 <= 0 \/ h2 <= 0).
Proof.
  unfold V01.guard, V01.judge, knockout.
  cmp_cases; intros G; split; try discriminate; try reflexivity; auto.
Qed.

Lemma loop_pure_rounds calc guard fuel : forall a b n log r,
  loop_pure calc guard fuel a b n log = Some r ->
  (length r.2 <= length log + fuel)%nat.
Proof.
  induction fuel as [|fuel IH]; intros a b n log r E; cbn [loop_pure] in E;
    destruct (guard (hp a) (hp b) n); try discriminate.
  - injection E as <-. cbn. lia.
  - apply IH in E. rewrite length_app in E. cbn in E. lia.
  - injection E as <-. cbn. lia.
Qed.

(** The final state of a duel of revision 0.2 started at round 1. *)
Lemma V02_duel_final fuel a b :
  (20 <= fuel)%nat ->
  exists a' b' log,
    loop_pure V02.calc V02.guard fuel a b 1 [] =
      Some (a', b', (1 + Z.of_nat (length log))%Z, log)
    /\ reached a b 1 [] a' b' (1 + Z.of_nat (length log))%Z log
    /\ V02.guard (hp a') (hp b') (1 + Z.of_nat (length log))%Z = false
    /\ (length log <= 20)%nat.
Proof.
  intros Hf.
  destruct (V02_loop_total V02.calc fuel a b 1 []) as [[[[a' b'] n'] log'] E];
    [cbn; lia|].
  pose proof (loop_pure_reached _ _ _ _ _ _ _ _ _ _ _ E) as [R G].
  assert (Hcap : (n' <= 21)%Z) by (eapply V02_loop_cap; [|exact E]; lia).
  pose proof R as (_ & _ & ext & Hlog & Hn & _). cbn [app] in Hlog. subst ext.
  subst n'. exists a', b', log'.
  split; [exact E|]. split; [exact R|]. split; [exact G|]. lia.
Qed.

(** The final state of a duel of revision 0.1 started at round 1. *)
Lemma V01_duel_final fuel a b :
  (Z.to_nat (Qceiling (hp a)) <= fuel)%nat ->
  exists a' b' log,
    loop_pure V01.calc V01.guard fuel a b 1 [] =
      Some (a', b', (1 + Z.of_nat (length log))%Z, log)
    /\ reached a b 1 [] a' b' (1 + Z.of_nat (length log))%Z log
    /\ V01.guard (hp a') (hp b') (1 + Z.of_nat (length log))%Z = false
    /\ (length log <= Z.to_nat (Qceiling (hp a)))%nat.
Proof.
  intros Hf.
  destruct (V01_loop_total V01.calc (Z.to_nat (Qceiling (hp a))) a b 1 [])
    as [[[[a' b'] n'] log'] E]; [lia|].
  pose proof (loop_pure_rounds _ _ _ _ _ _ _ _ E) as Hlen. cbn in Hlen.
  apply (loop_pure_fuel_mono _ _ _ fuel) in E; [|exact Hf].
  pose proof (loop_pure_reached _ _ _ _ _ _ _ _ _ _ _ E) as [R G].
  pose proof R as (_ & _ & ext & Hlog & Hn & _). cbn [app] in Hlog. subst ext.
  subst n'. exists a', b', log'.
  split; [exact E|]. split; [exact R|]. split; [exact G|]. exact Hlen.
Qed.

(** C2.  The verdict printed after the loop is the one of the rule: the
    tie-break on the final hp (higher hp wins, equal hp is a draw) exactly
    when the loop ended by the round cap with both combatants standing;
    otherwise at least one hp is at 0 or below, the verdict is a draw when
    both are, and a win for the survivor when one is.  Revision 0.1 has no
    cap and always ends in the second case. *)
Theorem verdict_rule :
  (forall w c1 c2 a b fuel,
     snapshots w c1 c2 a b -> (20 <= fuel)%nat ->
     exists log v w' a' b',
       resolve V02.calc V02.guard V02.judge fuel c1 c2 1 [] w = Some ((log, v), w')
       /\ snapshots w' c1 c2 a' b'
       /\ v = spec_verdict (length log) (hp a') (hp b')
       /\ (ended_by_cap (length log) (hp a') (hp b') = false ->
           hp a' <= 0 \/ hp b' <= 0))
  /\ (forall w c1 c2 a b fuel,
     snapshots w c1 c2 a b -> (Z.to_nat (Qceiling (hp a)) <= fuel)%nat ->
     exists log v w' a' b',
       resolve V01.calc V01.guard V01.judge fuel c1 c2 1 [] w = Some ((log, v), w')
       /\ snapshots w' c1 c2 a' b'
       /\ v = knockout (hp a') (hp b')
       /\ (hp a' <= 0 \/ hp b' <= 0)).
Proof.
  split; intros w c1 c2 a b fuel S0 Hf.
  - destruct (V02_duel_final fuel a b Hf) as (a' & b' & log & E & _ & G & Hlen).
    pose proof (resolve_run V02.calc V02.guard V02.judge c1 c2 fuel w a b 1 [] S0) as R.
    rewrite E in R. destruct R as (w' & ER & S' & _).
    destruct (V02_judge_final _ (length log) (hp a') (hp b') eq_refl ltac:(lia) G)
      as [J K].
    exists log, (V02.judge (1 + Z.of_nat (length log)) (hp a') (hp b')), w', a', b'.
    repeat split; try assumption; apply S'.
  - destruct (V01_duel_final fuel a b Hf) as (a' & b' & log & E & _ & G & Hlen).
    pose proof (resolve_run V01.calc V01.guard V01.judge c1 c2 fuel w a b 1 [] S0) as R.
    rewrite E in R. destruct R as (w' & ER & S' & _).
    destruct (V01_judge_final _ (hp a') (hp b') G) as [J K].
    exists log, (V01.judge (1 + Z.of_nat (length log)) (hp a') (hp b')), w', a', b'.
    repeat split; try assumption; apply S'.
Qed.

(** The end-to-end scenario of the specification: water and fire, each
    with hp 50, attack 10 and defense 5. *)
Definition water_10 : Card := Card_init V02.k "A" 50 10 5 "水" "R".
Definition fire_10 : Card := Card_init V02.k "B" 50 10 5 "火" "R".
Definition scenario : World := mkWorld [0%nat; 1%nat] [water_10; fire_10].

Lemma verdict_rule_witness :
  exists log v w' a' b',
    resolve V02.calc V02.guard V02.judge 20 0%nat 1%nat 1 [] scenario
      = Some ((log, v), w')
    /\ snapshots w' 0%nat 1%nat a' b'
    /\ v = spec_verdict (length log) (hp a') (hp b')
    /\ (ended_by_cap (length log) (hp a') (hp b') = false ->
        hp a' <= 0 \/ hp b' <= 0).
Proof.
  destruct verdict_rule as [H _].
  apply (H scenario 0%nat 1%nat water_10 fire_10 20%nat).
  - repeat split. lia.
  - lia.
Defined.

(** ** Simultaneity *)

(** A round in which both blows are lethal is the last one. *)
Lemma loop_pure_lethal calc guard fuel a b n log :
  guard (hp a) (hp b) n = true ->
  (forall m, guard 0 0 m = false) ->
  hp b <= damage_dealt calc a b ->
  hp a <= damage_dealt calc b a ->
  loop_pure calc guard (S fuel) a b n log =
    Some (hit a (damage_dealt calc b a), hit b (damage_dealt calc a b),
          (n + 1)%Z,
          log ++ [mkRound n (damage_dealt calc a b) (damage_dealt calc b a) 0 0]).
Proof.
  intros G G0 Hb Ha. cbn [loop_pure]. rewrite G. cbv zeta.
  rewrite (hit_lethal a _ Ha), (hit_lethal b _ Hb).
  destruct fuel; cbn [loop_pure];
    rewrite (hit_lethal a _ Ha), (hit_lethal b _ Hb), G0; reflexivity.
Qed.

Lemma V02_guard_dead m : V02.guard 0 0 m = false.
Proof. reflexivity. Qed.

Lemma V01_guard_dead m : V01.guard 0 0 m = false.
Proof. reflexivity. Qed.

Lemma V02_judge_dead n : V02.judge n 0 0 = Draw.
Proof. unfold V02.judge. destruct (n >=? 20)%Z; reflexivity. Qed.

(** What a round with two lethal blows leads to: the round [r] is the last
    one printed, both hp are 0 after it, and the verdict is a draw. *)
Definition mutual_knockout (run : M (list round_record * verdict))
    (w : World) (c1 c2 : ref) (a b : Card) (log : list round_record)
    (damage1 damage2 : Q) : Prop :=
  exists r w' a' b',
    run w = Some ((log ++ [r], Draw), w')
    /\ rr_damage1 r = damage1 /\ rr_damage2 r = damage2
    /\ rr_hp1 r = 0 /\ rr_hp2 r = 0
    /\ snapshots w' c1 c2 a' b'
    /\ hp a' = 0 /\ hp b' = 0.

Lemma mutual_knockout_run calc guard judge fuel w c1 c2 a b n log :
  (forall m, guard 0 0 m = false) ->
  (forall m, judge m 0 0 = Draw) ->
  snapshots w c1 c2 a b ->
  guard (hp a) (hp b) n = true ->
  hp b <= damage_dealt calc a b ->
  hp a <= damage_dealt calc b a ->
  mutual_knockout (resolve calc guard judge (S fuel) c1 c2 n log) w c1 c2 a b log
    (damage_dealt calc a b) (damage_dealt calc b a).
Proof.
  intros G0 J0 S0 G Hb Ha.
  pose proof (resolve_run calc guard judge c1 c2 (S fuel) w a b n log S0) as R.
  rewrite (loop_pure_lethal calc guard fuel a b n log G G0 Hb Ha) in R.
  destruct R as (w' & E & S' & _).
  rewrite (hit_lethal a _ Ha), (hit_lethal b _ Hb), J0 in E.
  eexists. exists w'. eexists. eexists.
  split; [exact E|]. cbn [rr_damage1 rr_damage2 rr_hp1 rr_hp2].
  repeat (split; [reflexivity|]). split; [exact S'|].
  split; apply hit_lethal; assumption.
Qed.

(** C3.  In every round both damages are computed from the two cards as
    they are before the round, and both hp are updated in that round: the
    hp of each side after the round is its hp before, less the damage of
    the other side, clamped at 0.  If a round is played in which both
    blows are lethal, both hp are 0 after it, it is the last round, and
    the verdict is a draw; in both revisions. *)
Theorem simultaneous_exchange :
  (forall calc w c1 c2 a b n,
     snapshots w c1 c2 a b ->
     exists r w',
       battle_round calc c1 c2 n w = Some (r, w')
       /\ rr_damage1 r = damage_dealt calc a b
       /\ rr_damage2 r = damage_dealt calc b a
       /\ snapshots w' c1 c2 (set_hp a (py_max 0 (hp a - rr_damage2 r)))
                             (set_hp b (py_max 0 (hp b - rr_damage1 r)))
       /\ rr_hp1 r = py_max 0 (hp a - rr_damage2 r)
       /\ rr_hp2 r = py_max 0 (hp b - rr_damage1 r))
  /\ (forall fuel w c1 c2 a b n log,
        snapshots w c1 c2 a b ->
        V02.guard (hp a) (hp b) n = true ->
        hp b <= damage_dealt V02.calc a b ->
        hp a <= damage_dealt V02.calc b a ->
        mutual_knockout (resolve V02.calc V02.guard V02.judge (S fuel) c1 c2 n log)
          w c1 c2 a b log (damage_dealt V02.calc a b) (damage_dealt V02.calc b a))
  /\ (forall fuel w c1 c2 a b n log,
        snapshots w c1 c2 a b ->
        V01.guard (hp a) (hp b) n = true ->
        hp b <= damage_dealt V01.calc a b ->
        hp a <= damage_dealt V01.calc b a ->
        mutual_knockout (resolve V01.calc V01.guard V01.judge (S fuel) c1 c2 n log)
          w c1 c2 a b log (damage_dealt V01.calc a b) (damage_dealt V01.calc b a)).
Proof.
  split; [|split].
  - intros calc w c1 c2 a b n S0.
    destruct (battle_round_run calc c1 c2 n w a b S0) as (w' & E & S' & _).
    eexists. exists w'. split; [exact E|].
    cbn [rr_damage1 rr_damage2 rr_hp1 rr_hp2].
    repeat (split; [reflexivity|]). split; [exact S'|]. split; reflexivity.
  - intros. apply mutual_knockout_run;
      auto using V02_guard_dead, V02_judge_dead.
  - intros. apply mutual_knockout_run; auto using V01_guard_dead.
Qed.

(** Two cards that fell each other in the first round. *)
Definition glass_1 : Card := Card_init V02.k "G1" 5 12 0 "土" "N".
Definition glass_2 : Card := Card_init V02.k "G2" 7 9 1 "虫" "N".

Lemma simultaneous_exchange_witness :
  mutual_knockout (resolve V02.calc V02.guard V02.judge 1 0%nat 1%nat 1 [])
    (mkWorld [0%nat; 1%nat] [glass_1; glass_2]) 0%nat 1%nat glass_1 glass_2 []
    (damage_dealt V02.calc glass_1 glass_2) (damage_dealt V02.calc glass_2 glass_1).
Proof.
  destruct simultaneous_exchange as (_ & H & _).
  apply (H 0%nat (mkWorld [0%nat; 1%nat] [glass_1; glass_2]) 0%nat 1%nat
           glass_1 glass_2 1%Z []).
  - repeat split. lia.
  - vm_compute. reflexivity.
  - vm_compute. discriminate.
  - vm_compute. discriminate.
Defined.

(** ** Termination and clamping *)





(** ** The collection during a duel *)

(** The cards of the collection, and every object that existed before, are
    the same in [w'] as in [w]. *)
Definition collection_kept (w w' : World) : Prop :=
  cards w' = cards w /\ forall l c, objs w !! l = Some c -> objs w' !! l = Some c.

Lemma collection_kept_refl w : collection_kept w w.
Proof. split; auto. Qed.

Lemma arena_frame_kept k w x y w' :
  frame (length (objs w)) (S (length (objs w))) (arena k w x y) w' ->
  collection_kept w w'.
Proof.
  intros (Hc & _ & Ho). split; [exact Hc|].
  intros l c Hl. pose proof (lookup_lt_Some _ _ _ Hl) as Hlt.
  rewrite Ho by lia. apply arena_old. exact Hl.
Qed.

(** A duel that was accepted: what [select_and_fight] returns, in terms of
    the loop on the two snapshots. *)
Lemma select_and_fight_accepted calc guard k judge fuel w n1 n2 r1 r2 x y out w' :
  valid_choice w n1 r1 x -> valid_choice w n2 r2 y ->
  select_and_fight calc guard k judge fuel (Numeric n1) (Numeric n2) w
    = Some (out, w') ->
  exists a' b' n' log,
    loop_pure calc guard fuel (copy_of k x) (copy_of k y) 1 []
      = Some (a', b', n', log)
    /\ out = Fought (name x) (name y) log (judge n' (hp a') (hp b'))
    /\ snapshots w' (length (objs w)) (S (length (objs w))) a' b'
    /\ frame (length (objs w)) (S (length (objs w))) (arena k w x y) w'.
Proof.
  intros V1 V2 E. rewrite (select_and_fight_run _ _ _ _ _ _ _ _ _ _ _ _ V1 V2) in E.
  pose proof (resolve_run calc guard judge _ _ fuel _ _ _ 1 []
                (arena_snapshots k w x y)) as R.
  destruct (loop_pure calc guard fuel (copy_of k x) (copy_of k y) 1 [])
    as [[[[a' b'] n'] log]|].
  - destruct R as (w'' & ER & S' & F'). rewrite ER in E.
    injection E as <- <-. exists a', b', n', log. auto.
  - rewrite R in E. discriminate E.
Qed.

Lemma select_and_fight_kept calc guard k judge fuel in1 in2 w out w' :
  select_and_fight calc guard k judge fuel in1 in2 w = Some (out, w') ->
  collection_kept w w'.
Proof.
  intros E.
  destruct (select_and_fight_inv _ _ _ _ _ _ _ _ _ _ E)
    as [(r & _ & ->) | (n1 & n2 & r1 & r2 & x & y & -> & -> & V1 & V2)].
  - apply collection_kept_refl.
  - destruct (select_and_fight_accepted _ _ _ _ _ _ _ _ _ _ _ _ _ _ V1 V2 E)
      as (a' & b' & n' & log & _ & _ & _ & F).
    eapply arena_frame_kept, F.
Qed.

(** With a well-formed collection and enough fuel for the loop,
    [select_and_fight] returns. *)
Lemma select_and_fight_total calc guard k judge fuel in1 in2 w :
  wf w ->
  (forall a b, exists r, loop_pure calc guard fuel a b 1 [] = Some r) ->
  exists out w', select_and_fight calc guard k judge fuel in1 in2 w = Some (out, w').
Proof.
  intros Hwf Htot.
  destruct in1 as [n1|]; [|eexists; eexists; reflexivity].
  destruct in2 as [n2|]; [|eexists; eexists; reflexivity].
  destruct ((n1 - 1 <? 0)%Z || (n1 - 1 >=? Z.of_nat (length (cards w)))%Z
            || (n2 - 1 <? 0)%Z || (n2 - 1 >=? Z.of_nat (length (cards w)))%Z)
    eqn:R.
  - eexists; eexists. unfold select_and_fight. cbv zeta.
    unfold mbind at 1. unfold M_bind at 1. cbn [get_cards]. rewrite R.
    reflexivity.
  - apply orb_false_iff in R as [R R4]. apply orb_false_iff in R as [R R3].
    apply orb_false_iff in R as [R1 R2].
    apply Z.ltb_ge in R1, R3. rewrite Z.geb_leb in R2, R4.
    apply Z.leb_gt in R2, R4.
    destruct (lookup_lt_is_Some_2 (cards w) (Z.to_nat (n1 - 1))) as [r1 C1]; [lia|].
    destruct (lookup_lt_is_Some_2 (cards w) (Z.to_nat (n2 - 1))) as [r2 C2]; [lia|].
    unfold wf in Hwf. rewrite Forall_lookup in Hwf.
    destruct (Hwf _ _ C1) as [x O1]. destruct (Hwf _ _ C2) as [y O2].
    assert (V1 : valid_choice w n1 r1 x) by (repeat split; auto; lia).
    assert (V2 : valid_choice w n2 r2 y) by (repeat split; auto; lia).
    rewrite (select_and_fight_run _ _ _ _ _ _ _ _ _ _ _ _ V1 V2).
    pose proof (resolve_run calc guard judge _ _ fuel _ _ _ 1 []
                  (arena_snapshots k w x y)) as RR.
    destruct (Htot (copy_of k x) (copy_of k y)) as [[[[a' b'] n'] log] E].
    rewrite E in RR. destruct RR as (w' & ER & _). rewrite ER.
    eexists; eexists; reflexivity.
Qed.

Lemma V02_simulate_battle_kept fuel in1 in2 w out w' :
  V02.simulate_battle fuel in1 in2 w = Some (out, w') -> collection_kept w w'.
Proof.
  unfold V02.simulate_battle. unfold mbind at 1. unfold M_bind at 1.
  cbn [get_cards]. destruct (length (cards w) <? 2)%nat.
  - intros [= <- <-]. apply collection_kept_refl.
  - apply select_and_fight_kept.
Qed.

(** C8.  [simulate_battle] works on two snapshot objects of its own: after
    a duel, whatever its course, the collection lists the same references
    and every object that existed before the duel (so every card of the
    collection) is unchanged in all its fields; in both revisions.  With a
    well-formed collection, revision 0.2 returns such a result for all
    inputs, given fuel for 20 rounds. *)
Theorem duel_leaves_collection_unchanged :
  (forall fuel in1 in2 w out w',
     V02.simulate_battle fuel in1 in2 w = Some (out, w') ->
     cards w' = cards w
     /\ forall l c, objs w !! l = Some c -> objs w' !! l = Some c)
  /\ (forall fuel in1 in2 w out w',
     V01.simulate_battle fuel in1 in2 w = Some (out, w') ->
     cards w' = cards w
     /\ forall l c, objs w !! l = Some c -> objs w' !! l = Some c)
  /\ (forall fuel in1 in2 w,
     wf w -> (20 <= fuel)%nat ->
     exists out w',
       V02.simulate_battle fuel in1 in2 w = Some (out, w')
       /\ cards w' = cards w
       /\ forall l c, objs w !! l = Some c -> objs w' !! l = Some c).
Proof.
  split; [|split].
  - intros fuel in1 in2 w out w' E. exact (V02_simulate_battle_kept _ _ _ _ _ _ E).
  - intros fuel in1 in2 w out w' E. exact (select_and_fight_kept _ _ _ _ _ _ _ _ _ _ E).
  - intros fuel in1 in2 w Hwf Hf.
    assert (T : exists out w', V02.simulate_battle fuel in1 in2 w = Some (out, w')).
    { unfold V02.simulate_battle. unfold mbind at 1. unfold M_bind at 1.
      cbn [get_cards]. destruct (length (cards w) <? 2)%nat.
      - eexists; eexists; reflexivity.
      - apply select_and_fight_total; [exact Hwf|].
        intros a b. apply V02_loop_total. cbn. lia. }
    destruct T as (out & w' & E). exists out, w'. split; [exact E|].
    exact (V02_simulate_battle_kept _ _ _ _ _ _ E).
Qed.

Lemma duel_leaves_collection_unchanged_witness :
  exists out w',
    V02.simulate_battle 20 (Numeric 1) (Numeric 2) scenario = Some (out, w')
    /\ cards w' = cards scenario
    /\ forall l c, objs scenario !! l = Some c -> objs w' !! l = Some c.
Proof.
  destruct duel_leaves_collection_unchanged as (_ & _ & H).
  apply (H 20%nat (Numeric 1) (Numeric 2) scenario).
  - repeat constructor; eexists; reflexivity.
  - lia.
Defined.

(** ** Input validation *)

(** The number typed does not name a card of the collection. *)
Definition out_of_range (w : World) (i : user_input) : Prop :=
  match i with
  | Numeric n => (n < 1)%Z \/ (Z.of_nat (length (cards w)) < n)%Z
  | NonNumeric => False
  end.

(** One of the two entries is not a number, or is out of range. *)
Definition bad_selection (w : World) (in1 in2 : user_input) : Prop :=
  in1 = NonNumeric \/ in2 = NonNumeric \/ out_of_range w in1 \/ out_of_range w in2.

Lemma select_and_fight_rejects calc guard k judge fuel in1 in2 w :
  bad_selection w in1 in2 ->
  exists r, select_and_fight calc guard k judge fuel in1 in2 w = Some (Rejected r, w).
Proof.
  intros Hbad. unfold select_and_fight. cbv zeta.
  destruct in1 as [n1|]; [|eexists; reflexivity].
  destruct in2 as [n2|]; [|eexists; reflexivity].
  unfold mbind at 1. unfold M_bind at 1. cbn [get_cards].
  assert (R : (n1 - 1 <? 0)%Z || (n1 - 1 >=? Z.of_nat (length (cards w)))%Z
              || (n2 - 1 <? 0)%Z || (n2 - 1 >=? Z.of_nat (length (cards w)))%Z
              = true).
  { rewrite !Z.geb_leb.
    destruct Hbad as [H | [H | [H | H]]]; try discriminate H; cbn in H;
      repeat rewrite orb_true_iff; rewrite !Z.ltb_lt, !Z.leb_le; lia. }
  rewrite R. eexists; reflexivity.
Qed.

(** A collection of one card, for revision 0.1. *)
Definition lone_card : Card := Card_init V01.k "L" 3 2 0 "土" "N".
Definition lone_world : World := mkWorld [0%nat] [lone_card].

(** C7 (as stated, refuted).  In revision 0.1 a collection of a single card
    is not rejected: with 1 typed at both prompts the card fights its own
    copy, and rounds are printed. *)
Lemma single_card_duel_is_accepted :
  (length (cards lone_world) < 2)%nat
  /\ exists n1 n2 log v w',
       V01.simulate_battle 3 (Numeric 1) (Numeric 1) lone_world
         = Some (Fought n1 n2 log v, w')
       /\ length log = 2%nat /\ v = Draw.
Proof.
  split; [cbn; lia|].
  eexists. eexists. eexists. eexists. eexists.
  split; [vm_compute; reflexivity|]. split; reflexivity.
Qed.

(** C7 (amended).  In revision 0.2, with fewer than two cards in the
    collection, or an entry that is not a number or is out of range,
    [simulate_battle] reports a rejection, prints no round and leaves the
    collection and all objects as they were.  Revision 0.1 does the same
    for an entry that is not a number or is out of range, which includes
    every entry when the collection is empty; it has no check on the
    number of cards. *)
Theorem invalid_input_is_rejected :
  (forall fuel in1 in2 w,
     (length (cards w) < 2)%nat ->
     V02.simulate_battle fuel in1 in2 w = Some (Rejected NotEnoughCards, w))
  /\ (forall fuel in1 in2 w,
     bad_selection w in1 in2 ->
     exists r, V02.simulate_battle fuel in1 in2 w = Some (Rejected r, w))
  /\ (forall fuel in1 in2 w,
     bad_selection w in1 in2 ->
     exists r, V01.simulate_battle fuel in1 in2 w = Some (Rejected r, w))
  /\ (forall fuel in1 in2 w,
     cards w = [] ->
     exists r, V01.simulate_battle fuel in1 in2 w = Some (Rejected r, w)).
Proof.
  split; [|split; [|split]].
  - intros fuel in1 in2 w Hlen. unfold V02.simulate_battle.
    unfold mbind at 1. unfold M_bind at 1. cbn [get_cards].
    apply Nat.ltb_lt in Hlen. rewrite Hlen. reflexivity.
  - intros fuel in1 in2 w Hbad. unfold V02.simulate_battle.
    unfold mbind at 1. unfold M_bind at 1. cbn [get_cards].
    destruct (length (cards w) <? 2)%nat; [eexists; reflexivity|].
    apply select_and_fight_rejects, Hbad.
  - intros fuel in1 in2 w Hbad. apply select_and_fight_rejects, Hbad.
  - intros fuel in1 in2 w Hnil. apply select_and_fight_rejects.
    unfold bad_selection, out_of_range. rewrite Hnil. cbn [length].
    destruct in1 as [n1|]; [|auto]. destruct in2 as [n2|]; [|auto].
    right. right. left. lia.
Qed.

Lemma invalid_input_is_rejected_witness :
  exists r,
    V02.simulate_battle 20 (Numeric 3) NonNumeric scenario = Some (Rejected r, scenario).
Proof.
  destruct invalid_input_is_rejected as (_ & H & _).
  apply (H 20%nat (Numeric 3) NonNumeric scenario).
  right. left. reflexivity.
Defined.

(** ** The score field *)

Lemma find_from_spec nm l : forall i w res w',
  V02.find_from l i nm w = Some (res, w') ->
  w' = w /\
  match res with
  | Some (j, r) =>
      l !! (j - i)%nat = Some r /\ (i <= j)%nat /\
      exists c, objs w !! r = Some c /\ name c = nm
  | None => True
  end.
Proof.
  induction l as [|r l IH]; intros i w res w' E; cbn [V02.find_from] in E.
  - injection E as <- <-. auto.
  - unfold mbind, M_bind, get, read, mbind, M_bind, mret, M_ret in E.
    destruct (objs w !! r) as [c|] eqn:O; cbn beta iota in E; [|discriminate E].
    case_bool_decide as Hn.
    + injection E as <- <-. split; [reflexivity|].
      rewrite Nat.sub_diag. split; [reflexivity|]. split; [lia|]. eauto.
    + apply IH in E as [-> E]. split; [reflexivity|].
      destruct res as [[j r']|]; [|exact I].
      destruct E as (Hl & Hle & Hc). split; [|split; [lia | exact Hc]].
      replace (j - i)%nat with (S (j - S i)) by lia. exact Hl.
Qed.

Lemma update_step w r f c :
  objs w !! r = Some c ->
  exists w1, update r f w = Some (tt, w1)
    /\ objs w1 !! r = Some (f c) /\ cards w1 = cards w
    /\ forall l, l <> r -> objs w1 !! l = objs w !! l.
Proof.
  intros O. eexists. split; [apply update_run, O|]. cbn. split; [|split].
  - apply list_lookup_insert_eq. eapply lookup_lt_Some, O.
  - reflexivity.
  - intros l Hl. apply list_lookup_insert_ne. congruence.
Qed.

(** What [modify_card] has done when it reports success: one card of the
    collection, of the given name, was updated in place and its score is
    the formula of its new stats; nothing else changed. *)
Definition modified_in_place (nm : string) (w w' : World) : Prop :=
  cards w' = cards w /\
  exists r c c',
    r ∈ cards w /\ objs w !! r = Some c /\ name c = nm
    /\ objs w' !! r = Some c' /\ name c' = nm
    /\ score_consistent V02.k c'
    /\ forall l, l <> r -> objs w' !! l = objs w !! l.

Lemma modify_card_modified nm nh na nd ne nr w w' :
  V02.modify_card nm nh na nd ne nr w = Some (V02.Modified, w') ->
  modified_in_place nm w w'.
Proof.
  unfold V02.modify_card, V02.find_card_by_name.
  unfold mbind at 1. unfold M_bind at 1.
  unfold mbind at 1. unfold M_bind at 1. cbn [get_cards].
  destruct (V02.find_from (cards w) 0 nm w) as [[res w0]|] eqn:F; [|discriminate].
  apply find_from_spec in F as [-> F].
  destruct res as [[j r]|]; [|intros [=]].
  destruct F as (Hl & _ & c & O & Hname).
  rewrite (bind_run _ _ _ _ _ (get_run hp _ _ _ O)).
  destruct (V02.int_or_keep nh (hp c)) as [v1|]; [|intros [=]].
  destruct (update_step w r (fun c => set_hp c v1) c O) as (w1 & E1 & O1 & C1 & F1).
  rewrite (bind_run _ _ _ _ _ E1), (bind_run _ _ _ _ _ (get_run attack _ _ _ O1)).
  destruct (V02.int_or_keep na _) as [v2|]; [|intros [=]].
  destruct (update_step w1 r (fun c => set_attack c v2) _ O1) as (w2 & E2 & O2 & C2 & F2).
  rewrite (bind_run _ _ _ _ _ E2), (bind_run _ _ _ _ _ (get_run defense _ _ _ O2)).
  destruct (V02.int_or_keep nd _) as [v3|]; [|intros [=]].
  destruct (update_step w2 r (fun c => set_defense c v3) _ O2) as (w3 & E3 & O3 & C3 & F3).
  rewrite (bind_run _ _ _ _ _ E3).
  destruct (update_step w3 r
              (fun c => set_element c (V02.str_or_keep ne (element c))) _ O3)
    as (w4 & E4 & O4 & C4 & F4).
  rewrite (bind_run _ _ _ _ _ E4).
  destruct (update_step w4 r
              (fun c => set_rarity c (V02.str_or_keep nr (rarity c))) _ O4)
    as (w5 & E5 & O5 & C5 & F5).
  rewrite (bind_run _ _ _ _ _ E5).
  destruct (update_step w5 r
              (fun c => set_score c (hp c + 4 * attack c + 4 * defense c)) _ O5)
    as (w6 & E6 & O6 & C6 & F6).
  rewrite (bind_run _ _ _ _ _ E6).
  intros [= <-]. split; [congruence|].
  exists r, c. eexists. split; [eapply list_elem_of_lookup_2, Hl|].
  split; [exact O|]. split; [exact Hname|]. split; [exact O6|].
  split; [exact Hname|]. split; [reflexivity|].
  intros l Hne. rewrite F6, F5, F4, F3, F2, F1 by exact Hne. reflexivity.
Qed.

(** C6 (as stated, refuted).  After the duel of the scenario the snapshot
    of the first card has hp 45, attack 10 and defense 5, and its score is
    still the 110 computed when the snapshot was built. *)
Lemma snapshot_score_is_stale :
  exists out w' c,
    V02.simulate_battle 20 (Numeric 1) (Numeric 2) scenario = Some (out, w')
    /\ objs w' !! 2%nat = Some c
    /\ hp c == 45 /\ score c == 110
    /\ ~ score_consistent V02.k c.
Proof.
  eexists. eexists. eexists. split; [vm_compute; reflexivity|].
  split; [reflexivity|]. split; [reflexivity|]. split; [reflexivity|].
  vm_compute. discriminate.
Qed.

(** C6 (amended).  A card's score is the formula of its hp, attack and
    defense when the card is built, and again when [modify_card] reports
    success, which changes that one card only.  A duel changes no object
    that existed before it, so the cards of the collection keep a
    consistent score; the two snapshots keep the score computed when they
    were built from the selected cards, whatever happens to their hp. *)
Theorem score_rederived_outside_duels :
  (forall k n h a d e r, score_consistent k (Card_init k n h a d e r))
  /\ (forall nm nh na nd ne nr w w',
        V02.modify_card nm nh na nd ne nr w = Some (V02.Modified, w') ->
        modified_in_place nm w w')
  /\ (forall fuel in1 in2 w out w' l c,
        V02.simulate_battle fuel in1 in2 w = Some (out, w') ->
        objs w !! l = Some c -> score_consistent V02.k c ->
        objs w' !! l = Some c /\ score_consistent V02.k c)
  /\ (forall fuel in1 in2 w out w' l c,
        V01.simulate_battle fuel in1 in2 w = Some (out, w') ->
        objs w !! l = Some c -> score_consistent V01.k c ->
        objs w' !! l = Some c /\ score_consistent V01.k c)
  /\ (forall calc guard k judge fuel w n1 n2 r1 r2 x y out w',
        valid_choice w n1 r1 x -> valid_choice w n2 r2 y ->
        select_and_fight calc guard k judge fuel (Numeric n1) (Numeric n2) w
          = Some (out, w') ->
        exists s1 s2,
          objs w' !! length (objs w) = Some s1
          /\ objs w' !! S (length (objs w)) = Some s2
          /\ score s1 = score_formula k x
          /\ score s2 = score_formula k y).
Proof.
  split; [intros; reflexivity|]. split; [exact modify_card_modified|].
  split; [|split].
  - intros fuel in1 in2 w out w' l c E O Hs.
    destruct (V02_simulate_battle_kept _ _ _ _ _ _ E) as [_ K]. auto.
  - intros fuel in1 in2 w out w' l c E O Hs.
    destruct (select_and_fight_kept _ _ _ _ _ _ _ _ _ _ E) as [_ K]. auto.
  - intros calc guard k judge fuel w n1 n2 r1 r2 x y out w' V1 V2 E.
    destruct (select_and_fight_accepted _ _ _ _ _ _ _ _ _ _ _ _ _ _ V1 V2 E)
      as (a' & b' & n' & log & EL & _ & (_ & O1 & O2) & _).
    destruct (loop_pure_reached _ _ _ _ _ _ _ _ _ _ _ EL) as [(Sa & Sb & _) _].
    exists a', b'. split; [exact O1|]. split; [exact O2|].
    destruct Sa as (_ & _ & _ & _ & _ & ->).
    destruct Sb as (_ & _ & _ & _ & _ & ->). split; reflexivity.
Qed.

Lemma score_rederived_witness :
  modified_in_place "A"
    scenario
    (mkWorld [0%nat; 1%nat]
       [mkCard "A" 60 10 5 "水" "R" 120; fire_10]).
Proof.
  destruct score_rederived_outside_duels as (_ & H & _).
  apply (H "A"%string (V02.IntText 60) V02.Blank V02.Blank ""%string ""%string
           scenario).
  vm_compute. reflexivity.
Defined.

(** * The collection operations *)

(** ** Assignments to [self.cards] *)

(** [self.cards.append(r)] *)
Definition append (r : ref) : M unit := fun w =>
  Some (tt, mkWorld (cards w ++ [r]) (objs w)).

(** [self.cards[i] = r]; an index out of range raises [IndexError], on
    which the computation is stuck. *)
Definition set_item (i : nat) (r : ref) : M unit := fun w =>
  if decide (i < length (cards w))%nat
  then Some (tt, mkWorld (<[i := r]> (cards w)) (objs w))
  else None.

(** [del self.cards[i]], stuck on an index out of range as well. *)
Definition del_item (i : nat) : M unit := fun w =>
  if decide (i < length (cards w))%nat
  then Some (tt, mkWorld (delete i (cards w)) (objs w))
  else None.

(** The card at position [j] of the collection. *)
Definition card_at (w : World) (j : nat) : option Card :=
  cards w !! j ≫= (fun r => objs w !! r).

(** Some card of the collection has the name [nm]. *)
Definition has_name (w : World) (nm : string) : Prop :=
  exists j c, card_at w j = Some c /\ name c = nm.

(** No two positions of the collection hold cards of the same name. *)
Definition unique_names (w : World) : Prop :=
  forall i j c d,
    card_at w i = Some c -> card_at w j = Some d -> name c = name d -> i = j.

(** [choice.lower() == 'y']: the answer is the letter y, in either case. *)
Definition answers_yes (choice : string) : bool :=
  bool_decide (choice = "y"%string) || bool_decide (choice = "Y"%string).

Module Crud02.

Inductive create_result :=
| Created            (* 创建成功 *)
| Updated            (* 已更新 *)
| Declined           (* the user did not answer y *)
| CreateValueError.  (* [int] raised, and nothing catches it *)

(** [create_card] of revision 0.2.  The answer [choice] is only asked for
    when a card of that name exists. *)
Definition create_card (nm choice : string) (hp attack defense : user_input)
    (element rarity : string) : M create_result :=
  found ← V02.find_card_by_name nm;
  if bool_decide (is_Some found) && negb (answers_yes choice) then mret Declined
  else
    match hp with
    | NonNumeric => mret CreateValueError
    | Numeric hp =>
    match attack with
    | NonNumeric => mret CreateValueError
    | Numeric attack =>
    match defense with
    | NonNumeric => mret CreateValueError
    | Numeric defense =>
        new_card ← new (Card_init V02.k nm (inject_Z hp) (inject_Z attack)
                          (inject_Z defense) element rarity);
        match found with
        | Some (index, _) => _ ← set_item index new_card; mret Updated
        | None => _ ← append new_card; mret Created
        end
    end end end.

(** [delete_card] of revision 0.2: [true] when a card was deleted. *)
Definition delete_card (nm : string) : M bool :=
  found ← V02.find_card_by_name nm;
  match found with
  | Some (index, _) => _ ← del_item index; mret true
  | None => mret false
  end.

(** [search_card]: the card printed, if any. *)
Definition search_card (nm : string) : M (option Card) :=
  found ← V02.find_card_by_name nm;
  match found with
  | Some (_, card) => c ← read card; mret (Some c)
  | None => mret None
  end.

Inductive import_result :=
| Imported (imported_count updated_count : nat)  (* 导入完成 *)
| FileNotFound                                   (* 文件未找到 *)
| ImportFailed.                                  (* 导入失败 *)

Section ImportLoop.

(** The string operations of Python used on a line: [line.strip()],
    [s.split(',')] and [int(s)], which is [None] where [int] raises. *)
Variable strip : string -> string.
Variable split : string -> list string.
Variable py_int : string -> option Z.

(** The [for line in file] loop of [import_cards], with its two counters.
    An exception raised by [int] ends the import; what was imported before
    stays. *)
Fixpoint import_lines (lines : list string) (imported_count updated_count : nat)
    : M import_result :=
  match lines with
  | [] => mret (Imported imported_count updated_count)
  | line :: rest =>
      if bool_decide (strip line = ""%string)
      then import_lines rest imported_count updated_count
      else
        match split (strip line) with
        | [nm; hp; attack; defense; element; rarity] =>
            match py_int hp with
            | None => mret ImportFailed
            | Some hp =>
            match py_int attack with
            | None => mret ImportFailed
            | Some attack =>
            match py_int defense with
            | None => mret ImportFailed
            | Some defense =>
                found ← V02.find_card_by_name nm;
                new_card ← new (Card_init V02.k nm (inject_Z hp) (inject_Z attack)
                                  (inject_Z defense) element rarity);
                match found with
                | Some (index, _) =>
                    _ ← set_item index new_card;
                    import_lines rest imported_count (S updated_count)
                | None =>
                    _ ← append new_card;
                    import_lines rest (S imported_count) updated_count
                end
            end end end
        | _ => import_lines rest imported_count updated_count
        end
  end.

(** [import_cards]: [file] is [None] when the file cannot be opened. *)
Definition import_cards (file : option (list string)) : M import_result :=
  match file with
  | None => mret FileNotFound
  | Some lines => import_lines lines 0 0
  end.

End ImportLoop.

End Crud02.

Module Crud01.

(** [create_card] of revision 0.1: no look-up, the card is appended;
    [false] when [int] raised. *)
Definition create_card (nm : string) (hp attack defense : user_input)
    (element rarity : string) : M bool :=
  match hp with
  | NonNumeric => mret false
  | Numeric hp =>
  match attack with
  | NonNumeric => mret false
  | Numeric attack =>
  match defense with
  | NonNumeric => mret false
  | Numeric defense =>
      new_card ← new (Card_init V01.k nm (inject_Z hp) (inject_Z attack)
                        (inject_Z defense) element rarity);
      _ ← append new_card;
      mret true
  end end end.

(** The loop of [delete_card] of revision 0.1, over the cards from
    position [i] on. *)
Fixpoint delete_from (l : list ref) (i : nat) (nm : string) : M bool :=
  match l with
  | [] => mret false
  | r :: l' =>
      n ← get name r;
      if bool_decide (n = nm) then _ ← del_item i; mret true
      else delete_from l' (S i) nm
  end.

Definition delete_card (nm : string) : M bool :=
  cs ← get_cards; delete_from cs 0%nat nm.

Section ImportLoop.

Variable strip : string -> string.
Variable split : string -> list string.
Variable py_int : string -> option Z.

(** The loop of [import_cards] of revision 0.1: every line of six fields
    becomes a new card; [false] when [int] raised. *)
Fixpoint import_lines (lines : list string) : M bool :=
  match lines with
  | [] => mret true
  | line :: rest =>
      if bool_decide (strip line = ""%string) then import_lines rest
      else
        match split (strip line) with
        | [nm; hp; attack; defense; element; rarity] =>
            match py_int hp with
            | None => mret false
            | Some hp =>
            match py_int attack with
            | None => mret false
            | Some attack =>
            match py_int defense with
            | None => mret false
            | Some defense =>
                new_card ← new (Card_init V01.k nm (inject_Z hp) (inject_Z attack)
                                  (inject_Z defense) element rarity);
                _ ← append new_card;
                import_lines rest
            end end end
        | _ => import_lines rest
        end
  end.

End ImportLoop.

End Crud01.

(** * Further properties of the duel *)

(** ** The damage is the same in every round *)













Lemma V02_simulate_battle_enough fuel in1 in2 w :
  (2 <= length (cards w))%nat ->
  V02.simulate_battle fuel in1 in2 w =
    select_and_fight V02.calc V02.guard V02.k V02.judge fuel in1 in2 w.
Proof.
  intros H. unfold V02.simulate_battle. unfold mbind at 1. unfold M_bind at 1.
  cbn [get_cards]. apply Nat.ltb_ge in H. rewrite H. reflexivity.
Qed.

(** What an accepted duel between the cards [x] and [y] has printed. *)
Definition fought (out : outcome) (x y : Card) (log : list round_record)
    (v : verdict) : Prop :=
  out = Fought (name x) (name y) log v.


Lemma scenario_choice_1 : valid_choice scenario 1 0%nat water_10.
Proof. repeat split. lia. Qed.

Lemma scenario_choice_2 : valid_choice scenario 2 1%nat fire_10.
Proof. repeat split. lia. Qed.


(** ** The verdict and the final hp *)

Lemma V02_judge_tie_break n h1 h2 :
  0 <= h1 -> 0 <= h2 -> V02.guard h1 h2 n = false ->
  V02.judge n h1 h2 = tie_break h1 h2.
Proof.
  unfold V02.guard, V02.judge, tie_break.
  cmp_cases; intros H1 H2 G; try discriminate; try reflexivity;
    try lia; exfalso; lra.
Qed.

Lemma V01_judge_tie_break n h1 h2 :
  0 <= h1 -> 0 <= h2 -> V01.guard h1 h2 n = false ->
  V01.judge n h1 h2 = tie_break h1 h2.
Proof.
  unfold V01.guard, V01.judge, tie_break.
  cmp_cases; intros H1 H2 G; try discriminate; try reflexivity; exfalso; lra.
Qed.

Lemma accepted_duel_tie_break calc guard k judge fuel w n1 n2 r1 r2 x y out w' :
  (forall n h1 h2, 0 <= h1 -> 0 <= h2 -> guard h1 h2 n = false ->
                   judge n h1 h2 = tie_break h1 h2) ->
  valid_choice w n1 r1 x -> valid_choice w n2 r2 y ->
  select_and_fight calc guard k judge fuel (Numeric n1) (Numeric n2) w
    = Some (out, w') ->
  exists log v a' b',
    fought out x y log v
    /\ snapshots w' (length (objs w)) (S (length (objs w))) a' b'
    /\ (log <> [] \/ (0 <= hp x /\ 0 <= hp y) -> v = tie_break (hp a') (hp b')).
Proof.
  intros Hj V1 V2 E.
  destruct (select_and_fight_accepted _ _ _ _ _ _ _ _ _ _ _ _ _ _ V1 V2 E)
    as (a' & b' & n' & log & EL & -> & S' & _).
  destruct (loop_pure_reached _ _ _ _ _ _ _ _ _ _ _ EL)
    as [(_ & _ & ext & Hlog & _ & _ & Hnil & Hcons) G].
  cbn [app] in Hlog. subst ext.
  exists log, (judge n' (hp a') (hp b')), a', b'.
  split; [reflexivity|]. split; [exact S'|].
  intros Hpos. apply Hj; [| |exact G].
  - destruct log; [|apply Hcons; discriminate].
    destruct (Hnil eq_refl) as [-> _]. destruct Hpos as [K|[K _]]; [contradiction | exact K].
  - destruct log; [|apply Hcons; discriminate].
    destruct (Hnil eq_refl) as [_ ->]. destruct Hpos as [K|[_ K]]; [contradiction | exact K].
Qed.

(** X2.  Once a round has been played, or when the two selected cards
    have no negative hp, the verdict of a duel is read off the hp left in
    the two snapshots: the side with more hp wins and equal hp is a draw,
    whether the loop ended by a knockout or by the round cap; in both
    revisions. *)
Theorem verdict_follows_final_hp :
  (forall fuel w n1 n2 r1 r2 x y out w',
     (2 <= length (cards w))%nat ->
     valid_choice w n1 r1 x -> valid_choice w n2 r2 y ->
     V02.simulate_battle fuel (Numeric n1) (Numeric n2) w = Some (out, w') ->
     exists log v a' b',
       fought out x y log v
       /\ snapshots w' (length (objs w)) (S (length (objs w))) a' b'
       /\ (log <> [] \/ (0 <= hp x /\ 0 <= hp y) -> v = tie_break (hp a') (hp b')))
  /\ (forall fuel w n1 n2 r1 r2 x y out w',
     valid_choice w n1 r1 x -> valid_choice w n2 r2 y ->
     V01.simulate_battle fuel (Numeric n1) (Numeric n2) w = Some (out, w') ->
     exists log v a' b',
       fought out x y log v
       /\ snapshots w' (length (objs w)) (S (length (objs w))) a' b'
       /\ (log <> [] \/ (0 <= hp x /\ 0 <= hp y) -> v = tie_break (hp a') (hp b'))).
Proof.
  split.
  - intros fuel w n1 n2 r1 r2 x y out w' Hlen V1 V2 E.
    rewrite V02_simulate_battle_enough in E by exact Hlen.
    eapply accepted_duel_tie_break; [apply V02_judge_tie_break | | | ]; eassumption.
  - intros fuel w n1 n2 r1 r2 x y out w' V1 V2 E.
    eapply accepted_duel_tie_break; [apply V01_judge_tie_break | | | ]; eassumption.
Qed.

Lemma scenario_duel :
  exists out w',
    V02.simulate_battle 20 (Numeric 1) (Numeric 2) scenario = Some (out, w').
Proof. eexists. eexists. vm_compute. reflexivity. Qed.

Lemma verdict_follows_final_hp_witness :
  exists out w' log v a' b',
    V02.simulate_battle 20 (Numeric 1) (Numeric 2) scenario = Some (out, w')
    /\ fought out water_10 fire_10 log v
    /\ snapshots w' 2%nat 3%nat a' b'
    /\ (log <> [] \/ (0 <= hp water_10 /\ 0 <= hp fire_10) ->
        v = tie_break (hp a') (hp b')).
Proof.
  destruct verdict_follows_final_hp as [H _].
  destruct scenario_duel as (out & w' & E).
  destruct (H 20%nat scenario 1%Z 2%Z 0%nat 1%nat water_10 fire_10 out w')
    as (log & v & a' & b' & F & S' & T).
  - cbn. lia.
  - exact scenario_choice_1.
  - exact scenario_choice_2.
  - exact E.
  - exists out, w', log, v, a', b'. auto.
Defined.

(** ** Twins *)

(** Two cards that differ at most in name, rarity and score. *)
Definition twin (x y : Card) : Prop :=
  hp x = hp y /\ attack x = attack y /\ defense x = defense y
  /\ element x = element y.

(** [calc] gives twins the same power against each other. *)
Definition even_handed (calc : Card -> Card -> Q) : Prop :=
  forall a b, attack a = attack b -> element a = element b -> calc a b = calc b a.

Lemma V02_calc_even_handed : even_handed V02.calc.
Proof.
  intros a b Ha He. unfold V02.calc, V02.calculate_attack. cbv zeta.
  rewrite Ha, He. reflexivity.
Qed.

Lemma V01_calc_even_handed : even_handed V01.calc.
Proof.
  intros a b Ha He. unfold V01.calc, V01.calculate_attack. cbv zeta.
  rewrite Ha, He. reflexivity.
Qed.

Lemma twin_loop calc guard fuel a b n log a' b' n' log' :
  even_handed calc -> twin a b ->
  loop_pure calc guard fuel a b n log = Some (a', b', n', log') ->
  twin a' b'.
Proof.
  intros Hc T E.
  apply (loop_pure_inv calc guard (fun a b _ _ => twin a b)) in E; [tauto | | exact T].
  clear T E. intros c d _ _ (Hh & Ha & Hd & He) _.
  assert (D : damage_dealt calc c d = damage_dealt calc d c).
  { unfold damage_dealt. cbv zeta. rewrite (Hc c d Ha He), Hd. reflexivity. }
  repeat split; cbn; try assumption. rewrite D, Hh. reflexivity.
Qed.

Lemma V02_judge_level n h :
  V02.guard h h n = false -> V02.judge n h h = Draw.
Proof.
  unfold V02.guard, V02.judge.
  assert (py_eq h h = true) as -> by (apply py_eq_true; reflexivity).
  rewrite orb_true_r.
  cmp_cases; intros G; try discriminate; try reflexivity; try lia; exfalso; lra.
Qed.

Lemma V01_judge_level n h :
  V01.guard h h n = false -> V01.judge n h h = Draw.
Proof.
  unfold V01.guard, V01.judge.
  cmp_cases; intros G; try discriminate; try reflexivity; exfalso; lra.
Qed.

Lemma twin_duel_draw calc guard k judge fuel w n1 n2 r1 r2 x y out w' :
  even_handed calc ->
  (forall n h, guard h h n = false -> judge n h h = Draw) ->
  twin x y ->
  valid_choice w n1 r1 x -> valid_choice w n2 r2 y ->
  select_and_fight calc guard k judge fuel (Numeric n1) (Numeric n2) w
    = Some (out, w') ->
  exists log, fought out x y log Draw.
Proof.
  intros Hc Hj T V1 V2 E.
  destruct (select_and_fight_accepted _ _ _ _ _ _ _ _ _ _ _ _ _ _ V1 V2 E)
    as (a' & b' & n' & log & EL & -> & _).
  assert (T' : twin a' b').
  { eapply twin_loop; [exact Hc | | exact EL]. exact T. }
  destruct (loop_pure_reached _ _ _ _ _ _ _ _ _ _ _ EL) as [_ G].
  destruct T' as (Hh & _). rewrite <- Hh in *.
  exists log. unfold fought. rewrite (Hj _ _ G). reflexivity.
Qed.

(** X3.  A duel between two cards with the same hp, attack, defense and
    element ends in a draw; in particular when the same card is selected
    at both prompts, which both revisions accept. *)
Theorem twins_draw :
  (forall fuel w n1 n2 r1 r2 x y out w',
     (2 <= length (cards w))%nat -> twin x y ->
     valid_choice w n1 r1 x -> valid_choice w n2 r2 y ->
     V02.simulate_battle fuel (Numeric n1) (Numeric n2) w = Some (out, w') ->
     exists log, fought out x y log Draw)
  /\ (forall fuel w n1 n2 r1 r2 x y out w',
     twin x y ->
     valid_choice w n1 r1 x -> valid_choice w n2 r2 y ->
     V01.simulate_battle fuel (Numeric n1) (Numeric n2) w = Some (out, w') ->
     exists log, fought out x y log Draw).
Proof.
  split.
  - intros fuel w n1 n2 r1 r2 x y out w' Hlen T V1 V2 E.
    rewrite V02_simulate_battle_enough in E by exact Hlen.
    eapply (twin_duel_draw V02.calc V02.guard);
      [apply V02_calc_even_handed | apply V02_judge_level | | | | ]; eassumption.
  - intros fuel w n1 n2 r1 r2 x y out w' T V1 V2 E.
    eapply (twin_duel_draw V01.calc V01.guard);
      [apply V01_calc_even_handed | apply V01_judge_level | | | | ]; eassumption.
Qed.

Lemma twins_draw_witness :
  exists out w' log,
    V02.simulate_battle 20 (Numeric 1) (Numeric 1) scenario = Some (out, w')
    /\ fought out water_10 water_10 log Draw.
Proof.
  destruct twins_draw as [H _].
  assert (E : exists out w',
             V02.simulate_battle 20 (Numeric 1) (Numeric 1) scenario = Some (out, w')).
  { eexists. eexists. vm_compute. reflexivity. }
  destruct E as (out & w' & E).
  destruct (H 20%nat scenario 1%Z 1%Z 0%nat 0%nat water_10 water_10 out w')
    as (log & F).
  - cbn. lia.
  - repeat split.
  - exact scenario_choice_1.
  - exact scenario_choice_1.
  - exact E.
  - exists out, w', log. auto.
Defined.

(** ** The round cap and the capless loop *)

Lemma capless_agrees calc fuel : forall a b n log a' b' n' log',
  loop_pure calc V02.guard fuel a b n log = Some (a', b', n', log') ->
  hp a' <= 0 \/ hp b' <= 0 ->
  loop_pure calc V01.guard fuel a b n log = Some (a', b', n', log').
Proof.
  induction fuel as [|fuel IH]; intros a b n log a' b' n' log' E K;
    cbn [loop_pure] in *; unfold V02.guard in E; unfold V01.guard;
    destruct (py_gt (hp a) 0 && py_gt (hp b) 0) eqn:G;
    cbn [andb] in E; try discriminate E.
  - destruct (n <=? 20)%Z; [discriminate E|]. injection E as <- <- <- <-.
    apply andb_true_iff in G as [G1 G2]. apply py_gt_true in G1, G2.
    exfalso. destruct K; lra.
  - exact E.
  - destruct (n <=? 20)%Z.
    + apply IH; assumption.
    + injection E as <- <- <- <-.
      apply andb_true_iff in G as [G1 G2]. apply py_gt_true in G1, G2.
      exfalso. destruct K; lra.
  - exact E.
Qed.

Lemma judges_agree n h1 h2 :
  0 <= h1 -> 0 <= h2 -> h1 <= 0 \/ h2 <= 0 ->
  V02.judge n h1 h2 = V01.judge n h1 h2.
Proof.
  intros H1 H2 K.
  assert (G2 : V02.guard h1 h2 n = false).
  { unfold V02.guard. cmp_cases; try reflexivity; exfalso; destruct K; lra. }
  assert (G1 : V01.guard h1 h2 n = false).
  { unfold V01.guard. cmp_cases; try reflexivity; exfalso; destruct K; lra. }
  rewrite V02_judge_tie_break, V01_judge_tie_break by assumption. reflexivity.
Qed.

Lemma get_inv {A : Type} (field : Card -> A) r w x w1 :
  get field r w = Some (x, w1) ->
  w1 = w /\ exists c, objs w !! r = Some c /\ x = field c.
Proof.
  unfold get, read, mbind, M_bind, mret, M_ret.
  destruct (objs w !! r) as [c|]; [|discriminate].
  intros [= <- <-]. eauto.
Qed.

Lemma battle_loop_capless calc c1 c2 fuel : forall w n log res w' a' b',
  battle_loop calc V02.guard fuel c1 c2 n log w = Some (res, w') ->
  objs w' !! c1 = Some a' -> objs w' !! c2 = Some b' ->
  hp a' <= 0 \/ hp b' <= 0 ->
  battle_loop calc V01.guard fuel c1 c2 n log w = Some (res, w').
Proof.
  induction fuel as [|fuel IH]; intros w n log res w' a' b' E O1 O2 K;
    cbn [battle_loop] in *;
    (destruct (get hp c1 w) as [[h1 w1]|] eqn:G1;
       [|unfold mbind, M_bind in E; rewrite G1 in E; discriminate E]);
    rewrite (bind_run _ _ _ _ _ G1) in E; rewrite (bind_run _ _ _ _ _ G1);
    apply get_inv in G1 as (-> & c & Oc & ->);
    (destruct (get hp c2 w) as [[h2 w2]|] eqn:G2;
       [|unfold mbind, M_bind in E; rewrite G2 in E; discriminate E]);
    rewrite (bind_run _ _ _ _ _ G2) in E; rewrite (bind_run _ _ _ _ _ G2);
    apply get_inv in G2 as (-> & d & Od & ->);
    unfold V02.guard in E; unfold V01.guard;
    destruct (py_gt (hp c) 0 && py_gt (hp d) 0) eqn:G; cbn [andb] in E;
    try exact E.
  - destruct (n <=? 20)%Z; [discriminate E|]. injection E as <- <-.
    apply andb_true_iff in G as [Ga Gb]. apply py_gt_true in Ga, Gb.
    assert (c = a') as -> by congruence. assert (d = b') as -> by congruence.
    exfalso. destruct K; lra.
  - destruct (n <=? 20)%Z.
    + destruct (battle_round calc c1 c2 n w) as [[r w1]|] eqn:R;
        [|unfold mbind, M_bind in E; rewrite R in E; discriminate E].
      rewrite (bind_run _ _ _ _ _ R) in E. rewrite (bind_run _ _ _ _ _ R).
      eapply IH; eassumption.
    + injection E as <- <-.
      apply andb_true_iff in G as [Ga Gb]. apply py_gt_true in Ga, Gb.
      assert (c = a') as -> by congruence. assert (d = b') as -> by congruence.
      exfalso. destruct K; lra.
Qed.

(** X4.  The round cap of revision 0.2 only matters for duels that reach
    it: when the capped duel on two snapshots ends with an hp at 0 or
    below, the capless loop and verdict of revision 0.1 (run with the same
    attack computation) print the same rounds and the same verdict and
    leave the same objects. *)
Theorem cap_is_invisible_on_knockouts calc fuel w c1 c2 a b log v w' a' b' :
  snapshots w c1 c2 a b ->
  resolve calc V02.guard V02.judge fuel c1 c2 1 [] w = Some ((log, v), w') ->
  snapshots w' c1 c2 a' b' ->
  hp a' <= 0 \/ hp b' <= 0 ->
  resolve calc V01.guard V01.judge fuel c1 c2 1 [] w = Some ((log, v), w').
Proof.
  intros S0 E (_ & O1 & O2) K.
  pose proof (battle_loop_run calc V02.guard c1 c2 fuel w a b 1 [] S0) as L2.
  unfold resolve in E |- *.
  destruct (battle_loop calc V02.guard fuel c1 c2 1 [] w) as [[[n' log'] w1]|] eqn:EL;
    [|unfold mbind, M_bind in E; rewrite EL in E; discriminate E].
  rewrite (bind_run _ _ _ _ _ EL) in E.
  destruct (get hp c1 w1) as [[h1 w2]|] eqn:G1;
    [|unfold mbind, M_bind in E; rewrite G1 in E; discriminate E].
  rewrite (bind_run _ _ _ _ _ G1) in E. apply get_inv in G1 as (-> & c & Oc & ->).
  destruct (get hp c2 w1) as [[h2 w2]|] eqn:G2;
    [|unfold mbind, M_bind in E; rewrite G2 in E; discriminate E].
  rewrite (bind_run _ _ _ _ _ G2) in E. apply get_inv in G2 as (-> & d & Od & ->).
  injection E as <- <- <-. cbn [fst snd] in *.
  assert (c = a') as -> by congruence. assert (d = b') as -> by congruence.
  rewrite (bind_run _ _ _ _ _
             (battle_loop_capless calc c1 c2 fuel w 1 [] _ _ a' b' EL O1 O2 K)).
  rewrite (bind_run _ _ _ _ _ (get_run hp _ _ _ O1)).
  rewrite (bind_run _ _ _ _ _ (get_run hp _ _ _ O2)).
  cbn [fst snd]. unfold mret, M_ret. do 3 f_equal.
  destruct (loop_pure calc V02.guard fuel a b 1 []) as [[[[a2 b2] n2] log2]|] eqn:E2;
    [|congruence].
  destruct L2 as (w2 & EL2 & (_ & O1' & O2') & _).
  injection EL2 as <- <- <-.
  assert (a2 = a') as -> by congruence. assert (b2 = b') as -> by congruence.
  destruct (loop_pure_reached _ _ _ _ _ _ _ _ _ _ _ E2)
    as [(_ & _ & ext & Hlog & Hn & _ & Hnil & Hcons) _].
  cbn [app] in Hlog. subst ext.
  destruct log' as [|r l].
  - cbn in Hn. subst n'. reflexivity.
  - destruct Hcons as [Ha Hb]; [discriminate|]. symmetry. apply judges_agree; assumption.
Qed.

Lemma cap_is_invisible_witness :
  exists log v w',
    resolve V02.calc V02.guard V02.judge 20 0%nat 1%nat 1 [] scenario
      = Some ((log, v), w')
    /\ resolve V02.calc V01.guard V01.judge 20 0%nat 1%nat 1 [] scenario
      = Some ((log, v), w').
Proof.
  eexists. eexists. eexists. split; [vm_compute; reflexivity|].
  eapply (cap_is_invisible_on_knockouts V02.calc 20 scenario 0%nat 1%nat
            water_10 fire_10).
  - repeat split. lia.
  - vm_compute. reflexivity.
  - split; [lia|]. split; reflexivity.
  - right. vm_compute. discriminate.
Defined.

(** ** Bounds on the power *)

(** X5.  Whatever the table, the power computed for an attacker with a
    non-negative attack lies between half its attack and one and a half
    times its attack; in both revisions. *)
Theorem power_between_half_and_one_and_a_half :
  (forall table a d, 0 <= attack a ->
     attack a * 0.5 <= V02.calculate_attack table a d
     /\ V02.calculate_attack table a d <= attack a * 1.5)
  /\ (forall table a d, 0 <= attack a ->
     attack a * 0.5 <= V01.calculate_attack table a d
     /\ V01.calculate_attack table a d <= attack a * 1.5).
Proof.
  split; intros table a d Ha.
  - unfold V02.calculate_attack. cbv zeta.
    destruct (bool_decide _); [lra|]. destruct (bool_decide _); lra.
  - unfold V01.calculate_attack. cbv zeta.
    destruct (V01.get_eq_str _ _); [lra|]. destruct (V01.get_eq_str _ _); lra.
Qed.

Lemma power_bounds_witness :
  attack water_10 * 0.5 <= V02.calculate_attack V02.element_relations water_10 fire_10
  /\ V02.calculate_attack V02.element_relations water_10 fire_10 <= attack water_10 * 1.5.
Proof.
  destruct power_between_half_and_one_and_a_half as [H _].
  apply (H V02.element_relations water_10 fire_10).
  vm_compute. discriminate.
Defined.

(** * Properties of the collection operations *)

(** ** Looking a card up by name *)

(** [r], at position [j], is the first card of the collection named [nm]. *)
Definition first_named (w : World) (nm : string) (j : nat) (r : ref) : Prop :=
  cards w !! j = Some r
  /\ (exists c, objs w !! r = Some c /\ name c = nm)
  /\ forall p c', (p < j)%nat -> card_at w p = Some c' -> name c' <> nm.

Lemma find_from_total nm l : forall i w,
  Forall (fun r => is_Some (objs w !! r)) l ->
  exists res,
    V02.find_from l i nm w = Some (res, w) /\
    match res with
    | Some (j, r) =>
        (i <= j)%nat /\ l !! (j - i)%nat = Some r
        /\ (exists c, objs w !! r = Some c /\ name c = nm)
        /\ forall p r' c', (p < j - i)%nat -> l !! p = Some r' ->
                           objs w !! r' = Some c' -> name c' <> nm
    | None =>
        forall p r' c', l !! p = Some r' -> objs w !! r' = Some c' -> name c' <> nm
    end.
Proof.
  induction l as [|r l IH]; intros i w Hwf; cbn [V02.find_from].
  - exists None. split; [reflexivity|]. intros p r' c' Hp. discriminate Hp.
  - apply Forall_cons in Hwf as [[c O] Hwf].
    rewrite (bind_run _ _ _ _ _ (get_run name _ _ _ O)).
    case_bool_decide as Hn.
    + exists (Some (i, r)). split; [reflexivity|].
      rewrite Nat.sub_diag. split; [lia|]. split; [reflexivity|].
      split; [eauto|]. intros p r' c' Hp. lia.
    + destruct (IH (S i) w Hwf) as (res & E & Hres). exists res.
      split; [exact E|]. destruct res as [[j r0]|].
      * destruct Hres as (Hle & Hl & Hc & Hfirst).
        split; [lia|]. replace (j - i)%nat with (S (j - S i)) by lia.
        split; [exact Hl|]. split; [exact Hc|].
        intros [|p] r' c' Hp Hl' O'.
        -- cbn in Hl'. injection Hl' as <-. congruence.
        -- apply (Hfirst p r' c'); [lia | exact Hl' | exact O'].
      * intros [|p] r' c' Hl' O'.
        -- cbn in Hl'. injection Hl' as <-. congruence.
        -- apply (Hres p r' c'); assumption.
Qed.

Lemma card_at_Some w j c :
  card_at w j = Some c <-> exists r, cards w !! j = Some r /\ objs w !! r = Some c.
Proof.
  unfold card_at. destruct (cards w !! j) as [r|]; cbn.
  - split; [eauto | intros (r' & [= <-] & O); exact O].
  - split; [discriminate | intros (r' & [=] & _)].
Qed.

(** X6.  On a collection whose references all resolve,
    [find_card_by_name] changes nothing and returns the position and the
    reference of the first card with the given name, or nothing exactly
    when no card has that name. *)
Theorem find_card_by_name_first nm w :
  wf w ->
  exists found,
    V02.find_card_by_name nm w = Some (found, w) /\
    match found with
    | Some (j, r) => first_named w nm j r
    | None => ~ has_name w nm
    end.
Proof.
  intros Hwf. destruct (find_from_total nm (cards w) 0 w Hwf) as (res & E & Hres).
  exists res. split.
  - unfold V02.find_card_by_name. unfold mbind, M_bind. cbn [get_cards]. exact E.
  - destruct res as [[j r]|].
    + destruct Hres as (_ & Hl & Hc & Hfirst). rewrite Nat.sub_0_r in Hl, Hfirst.
      split; [exact Hl|]. split; [exact Hc|].
      intros p c' Hp Hat. apply card_at_Some in Hat as (r' & Hl' & O').
      apply (Hfirst p r' c'); assumption.
    + intros (j & c & Hat & Hname). apply card_at_Some in Hat as (r' & Hl' & O').
      exact (Hres j r' c Hl' O' Hname).
Qed.

Lemma scenario_wf : wf scenario.
Proof. repeat constructor; eexists; reflexivity. Qed.

Lemma find_card_by_name_first_witness :
  exists found,
    V02.find_card_by_name "B" scenario = Some (found, scenario) /\
    match found with
    | Some (j, r) => first_named scenario "B" j r
    | None => ~ has_name scenario "B"
    end.
Proof.
  apply (find_card_by_name_first "B" scenario). exact scenario_wf.
Defined.
